(** * gen_blas.py: the BLAS surface generator of libgpuarray

    A shallow embedding of [gen_blas.py]: the argument model, the three
    operation descriptors, the renderers of the five generated artifacts,
    the generated C function [GpuArray_r<op>] (the validating pipeline of
    [ARRAYBLAS_TMPL]) and the high-level Cython binding of
    [BLAS_PYX_TMPL]. *)

From Stdlib Require Import String Ascii List ZArith QArith Bool Lia.
Import ListNotations.
Open Scope string_scope.

(* ------------------------------------------------------------------ *)
(** ** String helpers (Python's [str.lower], [s[-1]], [', '.join]) *)

Definition ascii_lower (c : ascii) : ascii :=
  let n := nat_of_ascii c in
  if (65 <=? n)%nat && (n <=? 90)%nat then ascii_of_nat (n + 32) else c.

Fixpoint lower (s : string) : string :=
  match s with
  | EmptyString => EmptyString
  | String c s' => String (ascii_lower c) (lower s')
  end.

Definition ascii_upper (c : ascii) : ascii :=
  let n := nat_of_ascii c in
  if (97 <=? n)%nat && (n <=? 122)%nat then ascii_of_nat (n - 32) else c.

Fixpoint upper (s : string) : string :=
  match s with
  | EmptyString => EmptyString
  | String c s' => String (ascii_upper c) (upper s')
  end.

(** [s[-1]] as a one-character string; Python raises on the empty string,
    which no descriptor name is. *)
Fixpoint last_char (s : string) : string :=
  match s with
  | EmptyString => EmptyString
  | String c EmptyString => String c EmptyString
  | String _ s' => last_char s'
  end.

Fixpoint join (sep : string) (l : list string) : string :=
  match l with
  | [] => ""
  | [x] => x
  | x :: l' => x ++ sep ++ join sep l'
  end.

(* ------------------------------------------------------------------ *)
(** ** Argument model (classes [Argument], [ScalarArg], [scalar], [size],
    [inc], [trans], [ArrayArg], [matrix], [vector]) *)

Inductive ArgClass := Cscalar | Csize | Cinc | Ctrans | Cmatrix | Cvector.

Definition ArgClass_eqb (a b : ArgClass) : bool :=
  match a, b with
  | Cscalar, Cscalar | Csize, Csize | Cinc, Cinc | Ctrans, Ctrans
  | Cmatrix, Cmatrix | Cvector, Cvector => true
  | _, _ => false
  end.

Record Argument := mkArg {
  arg_class : ArgClass;
  name : string;
  const : bool;
  pydef : option string;
  isoutput : bool
}.

(** Constructors as the descriptor table calls them. *)
Definition scalar (n : string) (pd : option string) : Argument :=
  mkArg Cscalar n false pd false.
Definition size (n : string) : Argument := mkArg Csize n false None false.
Definition inc (n : string) : Argument := mkArg Cinc n false None false.
Definition trans (n : string) : Argument := mkArg Ctrans n false None false.
(** [ArrayArg.__init__]: an output array gets [pydef = 'None']. *)
Definition array_arg (c : ArgClass) (n : string) (output : bool) : Argument :=
  mkArg c n false (if output then Some "None" else None) output.
Definition matrix (n : string) (output : bool) := array_arg Cmatrix n output.
Definition vector (n : string) (output : bool) := array_arg Cvector n output.

Definition ismatrix (a : Argument) : bool :=
  match arg_class a with Cmatrix => true | _ => false end.
Definition isarray (a : Argument) : bool :=
  match arg_class a with Cmatrix | Cvector => true | _ => false end.

(** Class attributes [ctype] and [tf_macro] of the [ScalarArg] subclasses. *)
Definition class_ctype (c : ArgClass) : string :=
  match c with
  | Csize => "size_t" | Cinc => "int" | Ctrans => "cb_transpose" | _ => ""
  end.
Definition tf_macro (c : ArgClass) : string :=
  match c with
  | Cscalar => "SCAL" | Csize => "SZ" | Cinc => "" | Ctrans => "TRANS" | _ => ""
  end.

Definition const_prefix (a : Argument) : string :=
  if const a then "const " else "".

(** [format_as_arg(ctype)]: low-level native parameter. *)
Definition format_as_arg (a : Argument) (ctype : string) : string :=
  match arg_class a with
  | Cscalar => const_prefix a ++ ctype ++ " " ++ name a
  | Csize | Cinc | Ctrans =>
      const_prefix a ++ class_ctype (arg_class a) ++ " " ++ name a
  | Cmatrix | Cvector => "gpudata *" ++ name a ++ ", size_t off" ++ name a
  end.

(** [format_as_call()]: forwarding expression in [generic_blas.inc.c]. *)
Definition format_as_call (a : Argument) : string :=
  match arg_class a with
  | Cmatrix | Cvector => "ARRAY(" ++ name a ++ ", dtype)"
  | c => tf_macro c ++ "(" ++ name a ++ ")"
  end.

(** [format_as_callarg(ctype)]: argument of the backend call in
    [gpuarray_array_blas.c]. *)
Definition format_as_callarg (a : Argument) (ctype : string) : string :=
  match arg_class a with
  | Cscalar => "(" ++ ctype ++ ")" ++ name a
  | Csize => lower (name a)
  | Cinc => last_char (name a) ++ "p->strides[0] / elsize"
  | Ctrans => name a
  | Cmatrix | Cvector =>
      name a ++ "p->data, " ++ name a ++ "p->offset / elsize"
  end.

(** [format_simple_arg(ctype, arraytype)]; [ScalarArg.format_simple_arg]
    is [ScalarArg.format_as_arg], [scalar]'s is [scalar.format_as_arg]. *)
Definition format_simple_arg (a : Argument) (ctype arraytype : string) : string :=
  match arg_class a with
  | Cmatrix | Cvector => arraytype ++ name a
  | _ => format_as_arg a ctype
  end.

(** [format_simple_call(arraypat)]: [arraypat % (name,)] for arrays, where
    the patterns used are ['%s'] and ['&%s.ga']. *)
Definition format_simple_call (a : Argument) (pre post : string) : string :=
  match arg_class a with
  | Cmatrix | Cvector => pre ++ name a ++ post
  | _ => name a
  end.

Definition with_default (s : string) (pd : option string) : string :=
  match pd with Some d => s ++ "=" ++ d | None => s end.

(** [format_pyarg()] (defined on [scalar] and [ArrayArg] only). *)
Definition format_pyarg (a : Argument) : string :=
  match arg_class a with
  | Cmatrix | Cvector => with_default ("GpuArray " ++ name a) (pydef a)
  | _ => with_default ("double " ++ name a) (pydef a)
  end.

(** [Dtype]: the element types, with their symbol letter. *)
Record Dtype := mkDtype { dt_name : string; c : string }.
Definition float := mkDtype "float" "s".
Definition double := mkDtype "double" "d".

(* ------------------------------------------------------------------ *)
(** ** The array runtime the generated C code runs against

    Constants of [gpuarray/array.h], [gpuarray/error.h] and
    [gpuarray/buffer_blas.h]; only distinctness of the codes matters. *)

Inductive typecode := GA_FLOAT | GA_DOUBLE | GA_OTHER_TYPE (n : nat).

Definition typecode_eqb (a b : typecode) : bool :=
  match a, b with
  | GA_FLOAT, GA_FLOAT | GA_DOUBLE, GA_DOUBLE => true
  | GA_OTHER_TYPE n, GA_OTHER_TYPE m => Nat.eqb n m
  | _, _ => false
  end.

Definition GA_NO_ERROR : Z := 0.
Definition GA_VALUE_ERROR : Z := 2.
Definition GA_INVALID_ERROR : Z := 4.
Definition GA_UNALIGNED_ERROR : Z := 12.
Definition GA_COPY_ERROR : Z := 13.

Definition GA_C_CONTIGUOUS : Z := 1.
Definition GA_F_CONTIGUOUS : Z := 2.
Definition GA_ALIGNED : Z := 256.

(** [flags & f] taken as a C truth value. *)
Definition flag_set (flags f : Z) : bool := negb (Z.land flags f =? 0)%Z.

Inductive cb_order := cb_row | cb_column.
Definition cb_c := cb_row.
Definition cb_fortran := cb_column.

Inductive cb_transpose := cb_no_trans | cb_trans | cb_conj_trans.

Definition cb_transpose_eqb (a b : cb_transpose) : bool :=
  match a, b with
  | cb_no_trans, cb_no_trans | cb_trans, cb_trans
  | cb_conj_trans, cb_conj_trans => true
  | _, _ => false
  end.

Definition cb_order_eqb (a b : cb_order) : bool :=
  match a, b with
  | cb_row, cb_row | cb_column, cb_column => true
  | _, _ => false
  end.

Inductive ga_order := GA_ANY_ORDER | GA_F_ORDER.

(** The fields of [GpuArray] the generated code reads. *)
Record GpuArray := mkGpuArray {
  data : nat;
  offset : Z;
  nd : nat;
  dimensions : list Z;
  strides : list Z;
  flags : Z;
  ga_typecode : typecode
}.

Definition dim (a : GpuArray) (i : nat) : Z := nth i (dimensions a) 0%Z.
Definition stride0 (a : GpuArray) : Z := nth 0 (strides a) 0%Z.

(** Modelled from the spec: [GpuArray_ISONESEGMENT] of [gpuarray/array.h]
    (not among the sources): the array is stored as one contiguous segment,
    i.e. it is C- or Fortran-contiguous. *)
Definition GpuArray_ISONESEGMENT (a : GpuArray) : bool :=
  flag_set (flags a) (Z.lor GA_C_CONTIGUOUS GA_F_CONTIGUOUS).

(** Values handed to a backend entry, one per descriptor argument, in the
    shape [format_as_callarg] renders them. *)
Inductive bval :=
  | BTrans (t : cb_transpose)
  | BSize (n : Z)
  | BScal (ctype : string) (q : Q)
  | BInc (i : Z)
  | BArr (buf : nat) (off : Z).

(** Python-level exceptions raised by the binding. *)
Inductive PyExn :=
  | TypeError (msg : string)
  | ValueError (msg : string)
  | GpuArrayException (err : Z).

(** The external collaborators: the array runtime's copy and property
    calls, the backend operation table, and pygpu's allocators. Context
    and operation-table handles are plain numbers. *)
Record Runtime := mkRuntime {
  GpuArray_copy : GpuArray -> ga_order -> Z * GpuArray;
  prop_ctx : GpuArray -> Z * nat;
  prop_blas_ops : GpuArray -> nat -> Z * nat;
  blas_setup : nat -> nat -> Z;
  blas_entry : nat -> string -> cb_order -> list bval -> Z;
  pygpu_empty : list Z -> typecode -> PyExn + GpuArray;
  pygpu_zeros : list Z -> typecode -> PyExn + GpuArray;
  pygpu_copy : GpuArray -> PyExn + GpuArray
}.

(* ------------------------------------------------------------------ *)
(** ** The frame of a generated [GpuArray_r<op>] function

    Parameters (arrays, transpose flags, scalars, [nocopy]) and locals
    ([Ap] pointers, [copyA] structs, [size_t] locals, [o], [elsize]); [live]
    lists the fallback copies currently allocated. *)

Inductive ptr := POrig | PCopy.

Record Frame := mkFrame {
  arrs : string -> GpuArray;
  transs : string -> cb_transpose;
  scals : string -> Q;
  nocopy : bool;
  ptrs : string -> ptr;
  copies : string -> GpuArray;
  sizes : string -> Z;
  o : cb_order;
  elsize : Z;
  live : list string
}.

Definition upd {V} (f : string -> V) (k : string) (v : V) : string -> V :=
  fun k' => if String.eqb k' k then v else f k'.

Definition set_trans (k : string) (t : cb_transpose) (fr : Frame) : Frame :=
  mkFrame (arrs fr) (upd (transs fr) k t) (scals fr) (nocopy fr) (ptrs fr)
    (copies fr) (sizes fr) (o fr) (elsize fr) (live fr).
Definition set_size (k : string) (v : Z) (fr : Frame) : Frame :=
  mkFrame (arrs fr) (transs fr) (scals fr) (nocopy fr) (ptrs fr)
    (copies fr) (upd (sizes fr) k v) (o fr) (elsize fr) (live fr).
Definition set_o (v : cb_order) (fr : Frame) : Frame :=
  mkFrame (arrs fr) (transs fr) (scals fr) (nocopy fr) (ptrs fr)
    (copies fr) (sizes fr) v (elsize fr) (live fr).
Definition set_elsize (v : Z) (fr : Frame) : Frame :=
  mkFrame (arrs fr) (transs fr) (scals fr) (nocopy fr) (ptrs fr)
    (copies fr) (sizes fr) (o fr) v (live fr).
(** [GpuArray_copy(&copyA, A, ord)] succeeded: the copy is allocated. *)
Definition store_copy (k : string) (v : GpuArray) (fr : Frame) : Frame :=
  mkFrame (arrs fr) (transs fr) (scals fr) (nocopy fr) (ptrs fr)
    (upd (copies fr) k v) (sizes fr) (o fr) (elsize fr) (k :: live fr).
(** [Ap = &copyA]. *)
Definition point_to_copy (k : string) (fr : Frame) : Frame :=
  mkFrame (arrs fr) (transs fr) (scals fr) (nocopy fr) (upd (ptrs fr) k PCopy)
    (copies fr) (sizes fr) (o fr) (elsize fr) (live fr).
(** [GpuArray_clear(&copyA)]: the copy is released. *)
Definition clear_copy (k : string) (fr : Frame) : Frame :=
  mkFrame (arrs fr) (transs fr) (scals fr) (nocopy fr) (ptrs fr)
    (copies fr) (sizes fr) (o fr) (elsize fr)
    (List.remove string_dec k (live fr)).

(** [Ap]: the array the name currently points to. *)
Definition deref (fr : Frame) (k : string) : GpuArray :=
  match ptrs fr k with POrig => arrs fr k | PCopy => copies fr k end.

(** Control flow of the C body: fall through with a value, [return e]
    (leaves the function at once), or [err = e; goto cleanup]. *)
Inductive exit := ExReturn (err : Z) | ExGoto (err : Z).

Definition M (A : Type) := Runtime -> Frame -> (A * Frame) + (exit * Frame).

Definition ret {A} (x : A) : M A := fun _ fr => inl (x, fr).
Definition bind {A B} (m : M A) (k : A -> M B) : M B :=
  fun rt fr => match m rt fr with
               | inl (x, fr') => k x rt fr'
               | inr e => inr e
               end.
Definition c_return {A} (e : Z) : M A := fun _ fr => inr (ExReturn e, fr).
Definition goto_cleanup {A} (e : Z) : M A := fun _ fr => inr (ExGoto e, fr).
Definition get : M Frame := fun _ fr => inl (fr, fr).
Definition ask : M Runtime := fun rt fr => inl (rt, fr).
Definition modify (f : Frame -> Frame) : M unit := fun _ fr => inl (tt, f fr).

Notation "x <- m ;; k" := (bind m (fun x => k))
  (at level 61, m at next level, right associativity).
Notation "m ;;; k" := (bind m (fun _ => k))
  (at level 61, right associativity).

Fixpoint for_each {A} (l : list A) (f : A -> M unit) : M unit :=
  match l with
  | [] => ret tt
  | x :: l' => f x ;;; for_each l' f
  end.

(* ------------------------------------------------------------------ *)
(** ** The frame and monad of the generated Cython binding *)

(** Python variables of a generated [def <op>(...)]: the [GpuArray]
    parameters and locals ([None] as [None]), the [double] parameters, the
    boolean options, the [cdef cb_transpose] locals and the [cdef size_t]
    shape buffer ([Yshp], [Cshp] or [Ashp]). *)
Record PyFrame := mkPyFrame {
  py_arrs : string -> option GpuArray;
  py_scals : string -> Q;
  py_bools : string -> bool;
  py_trans : string -> cb_transpose;
  py_shp : list Z
}.

Definition PyM (A : Type) := Runtime -> PyFrame -> (A * PyFrame) + (PyExn * PyFrame).

Definition pret {A} (x : A) : PyM A := fun _ fr => inl (x, fr).
Definition pbind {A B} (m : PyM A) (k : A -> PyM B) : PyM B :=
  fun rt fr => match m rt fr with
               | inl (x, fr') => k x rt fr'
               | inr e => inr e
               end.
Definition raise {A} (e : PyExn) : PyM A := fun _ fr => inr (e, fr).
Definition pget : PyM PyFrame := fun _ fr => inl (fr, fr).
Definition pask : PyM Runtime := fun rt fr => inl (rt, fr).
Definition pmodify (f : PyFrame -> PyFrame) : PyM unit :=
  fun _ fr => inl (tt, f fr).

Notation "x <-- m ;; k" := (pbind m (fun x => k))
  (at level 61, m at next level, right associativity).

Definition pset_arr (k : string) (v : GpuArray) (fr : PyFrame) : PyFrame :=
  mkPyFrame (upd (py_arrs fr) k (Some v)) (py_scals fr) (py_bools fr)
    (py_trans fr) (py_shp fr).
Definition pset_bool (k : string) (v : bool) (fr : PyFrame) : PyFrame :=
  mkPyFrame (py_arrs fr) (py_scals fr) (upd (py_bools fr) k v)
    (py_trans fr) (py_shp fr).
Definition pset_trans (k : string) (v : cb_transpose) (fr : PyFrame) : PyFrame :=
  mkPyFrame (py_arrs fr) (py_scals fr) (py_bools fr)
    (upd (py_trans fr) k v) (py_shp fr).
Definition pset_shp (v : list Z) (fr : PyFrame) : PyFrame :=
  mkPyFrame (py_arrs fr) (py_scals fr) (py_bools fr) (py_trans fr) v.

Definition null_array : GpuArray := mkGpuArray 0 0 0 [] [] 0 (GA_OTHER_TYPE 0).

(** [X.ga] of a Python variable; an input array passed as [None] is outside
    the model (the generated code dereferences it). *)
Definition py_ga (fr : PyFrame) (k : string) : GpuArray :=
  match py_arrs fr k with Some a => a | None => null_array end.

Fixpoint pfor_each {A} (l : list A) (f : A -> PyM unit) : PyM unit :=
  match l with
  | [] => pret tt
  | x :: l' => pbind (f x) (fun _ => pfor_each l' f)
  end.

(** A pygpu call that may raise. *)
Definition pcall {A} (r : PyExn + A) : PyM A :=
  match r with inl e => raise e | inr x => pret x end.

(* ------------------------------------------------------------------ *)
(** ** The per-operation snippets [check_dims_*], [setup_order_*] and
    [py_ensure_output_*] *)

(** [check_dims_gemv]; it reads the parameters [A], [X], [Y]. *)
Definition check_dims_gemv : M unit :=
  fr <- get;;
  let A := arrs fr "A" in
  let X := arrs fr "X" in
  let Y := arrs fr "Y" in
  (if cb_transpose_eqb (transs fr "transA") cb_no_trans
   then modify (fun f => set_size "n" (dim A 1) (set_size "m" (dim A 0) f))
   else modify (fun f => set_size "n" (dim A 0) (set_size "m" (dim A 1) f)));;;
  fr <- get;;
  if negb (dim Y 0 =? sizes fr "m")%Z || negb (dim X 0 =? sizes fr "n")%Z
  then c_return GA_VALUE_ERROR
  else modify (fun f => set_size "n" (dim A 1) (set_size "m" (dim A 0) f)).

(** [setup_order_gemv]; it reads [Ap]. *)
Definition setup_order_gemv : M unit :=
  fr <- get;;
  let Ap := deref fr "A" in
  if flag_set (flags Ap) GA_F_CONTIGUOUS then
    modify (fun f => set_size "lda" (dim Ap 0) (set_o cb_fortran f))
  else if flag_set (flags Ap) GA_C_CONTIGUOUS then
    modify (fun f => set_size "lda" (dim Ap 1) (set_o cb_c f))
  else goto_cleanup GA_VALUE_ERROR.

(** [check_dims_gemm]. *)
Definition check_dims_gemm : M unit :=
  fr <- get;;
  let A := arrs fr "A" in
  let B := arrs fr "B" in
  let C := arrs fr "C" in
  (if cb_transpose_eqb (transs fr "transA") cb_no_trans
   then modify (fun f => set_size "k" (dim A 1) (set_size "m" (dim A 0) f))
   else modify (fun f => set_size "k" (dim A 0) (set_size "m" (dim A 1) f)));;;
  fr <- get;;
  (if cb_transpose_eqb (transs fr "transB") cb_no_trans
   then modify (set_size "n" (dim B 1));;;
        (if negb (dim B 0 =? sizes fr "k")%Z then c_return GA_VALUE_ERROR
         else ret tt)
   else modify (set_size "n" (dim B 0));;;
        (if negb (dim B 1 =? sizes fr "k")%Z then c_return GA_VALUE_ERROR
         else ret tt));;;
  fr <- get;;
  if negb (dim C 0 =? sizes fr "m")%Z || negb (dim C 1 =? sizes fr "n")%Z
  then c_return GA_VALUE_ERROR
  else ret tt.

(** The transpose inversion of [setup_order_gemm]:
    [if (t == cb_no_trans) t = cb_trans; else t = cb_no_trans;]. *)
Definition flip (t : cb_transpose) : cb_transpose :=
  if cb_transpose_eqb t cb_no_trans then cb_trans else cb_no_trans.

(** The block [setup_order_gemm] repeats for [A] (with [lda], [transA])
    and for [B] (with [ldb], [transB]). *)
Definition order_block_gemm (X ldx transX : string) : M unit :=
  fr <- get;;
  let Xp := deref fr X in
  if flag_set (flags Xp) GA_F_CONTIGUOUS then
    modify (set_size ldx (dim Xp 0));;;
    (if cb_order_eqb (o fr) cb_c
     then modify (fun f => set_trans transX (flip (transs f transX)) f)
     else ret tt)
  else if flag_set (flags Xp) GA_C_CONTIGUOUS then
    modify (set_size ldx (dim Xp 1));;;
    (if cb_order_eqb (o fr) cb_fortran
     then modify (fun f => set_trans transX (flip (transs f transX)) f)
     else ret tt)
  else goto_cleanup GA_VALUE_ERROR.

(** [setup_order_gemm]: the order is fixed by [Cp]. *)
Definition setup_order_gemm : M unit :=
  fr <- get;;
  let Cp := deref fr "C" in
  (if flag_set (flags Cp) GA_F_CONTIGUOUS then
     modify (fun f => set_size "ldc" (dim Cp 0) (set_o cb_fortran f))
   else if flag_set (flags Cp) GA_C_CONTIGUOUS then
     modify (fun f => set_size "ldc" (dim Cp 1) (set_o cb_c f))
   else goto_cleanup GA_VALUE_ERROR);;;
  order_block_gemm "A" "lda" "transA";;;
  order_block_gemm "B" "ldb" "transB".

(** The storage order [setup_order_gemm] reads off a matrix: Fortran when
    [GA_F_CONTIGUOUS] is set (tested first), else C when
    [GA_C_CONTIGUOUS] is set, else none. *)
Definition storage_order (X : GpuArray) : option cb_order :=
  if flag_set (flags X) GA_F_CONTIGUOUS then Some cb_fortran
  else if flag_set (flags X) GA_C_CONTIGUOUS then Some cb_c else None.

(** The leading dimension of a matrix stored in order [ord]: [dimensions[0]]
    in Fortran order, [dimensions[1]] in C order. *)
Definition ld_of (ord : cb_order) (X : GpuArray) : Z :=
  if cb_order_eqb ord cb_fortran then dim X 0 else dim X 1.

(** [check_dims_ger]. *)
Definition check_dims_ger : M unit :=
  fr <- get;;
  let A := arrs fr "A" in
  modify (fun f => set_size "n" (dim (arrs fr "Y") 0)
                     (set_size "m" (dim (arrs fr "X") 0) f));;;
  fr <- get;;
  if negb (dim A 0 =? sizes fr "m")%Z || negb (dim A 1 =? sizes fr "n")%Z
  then c_return GA_VALUE_ERROR
  else ret tt.

(** [setup_order_ger]. *)
Definition setup_order_ger : M unit :=
  fr <- get;;
  let Ap := deref fr "A" in
  if flag_set (flags Ap) GA_F_CONTIGUOUS then
    modify (fun f => set_size "lda" (dim Ap 0) (set_o cb_fortran f))
  else if flag_set (flags Ap) GA_C_CONTIGUOUS then
    modify (fun f => set_size "lda" (dim Ap 1) (set_o cb_c f))
  else goto_cleanup GA_VALUE_ERROR.

(** [beta != 0.0]. *)
Definition nonzero (q : Q) : bool := negb (Qeq_bool q 0).

(** [py_ensure_output_gemv] ([pygpu_empty(1, &Yshp, A.ga.typecode,
    GA_ANY_ORDER, A.context, None)]: order and context are not modelled). *)
Definition py_ensure_output_gemv : PyM unit :=
  fr <-- pget;;
  let A := py_ga fr "A" in
  if negb (nd A =? 2)%nat then raise (TypeError "A is not a matrix") else
  let Yshp := if cb_transpose_eqb (py_trans fr "transA") cb_no_trans
              then dim A 0 else dim A 1 in
  _ <-- pmodify (pset_shp [Yshp]);;
  match py_arrs fr "Y" with
  | None =>
      if nonzero (py_scals fr "beta")
      then raise (ValueError "Y not provided and beta != 0")
      else rt <-- pask;;
           Y <-- pcall (pygpu_empty rt [Yshp] (ga_typecode A));;
           pmodify (fun f => pset_bool "overwrite_y" true (pset_arr "Y" Y f))
  | Some _ => pret tt
  end.

(** [py_ensure_output_gemm]. *)
Definition py_ensure_output_gemm : PyM unit :=
  fr <-- pget;;
  let A := py_ga fr "A" in
  let B := py_ga fr "B" in
  if negb (nd A =? 2)%nat then raise (TypeError "A is not a matrix") else
  if negb (nd B =? 2)%nat then raise (TypeError "B is not a matrix") else
  let Cshp0 := if cb_transpose_eqb (py_trans fr "transA") cb_no_trans
               then dim A 0 else dim A 1 in
  let Cshp1 := if cb_transpose_eqb (py_trans fr "transB") cb_no_trans
               then dim B 1 else dim B 0 in
  _ <-- pmodify (pset_shp [Cshp0; Cshp1]);;
  match py_arrs fr "C" with
  | None =>
      if nonzero (py_scals fr "beta")
      then raise (ValueError "C not provided and beta != 0")
      else rt <-- pask;;
           C <-- pcall (pygpu_empty rt [Cshp0; Cshp1] (ga_typecode A));;
           pmodify (fun f => pset_bool "overwrite_c" true (pset_arr "C" C f))
  | Some _ => pret tt
  end.

(** [py_ensure_output_ger]. *)
Definition py_ensure_output_ger : PyM unit :=
  fr <-- pget;;
  match py_arrs fr "A" with
  | None =>
      let Ashp := [dim (py_ga fr "X") 0; dim (py_ga fr "Y") 0] in
      _ <-- pmodify (pset_shp Ashp);;
      rt <-- pask;;
      A <-- pcall (pygpu_zeros rt Ashp (ga_typecode (py_ga fr "X")));;
      pmodify (fun f => pset_bool "overwrite_a" true (pset_arr "A" A f))
  | Some _ => pret tt
  end.

(* ------------------------------------------------------------------ *)
(** ** Operation descriptors ([BlasOp], [make_ops]) *)

Record BlasOp := mkBlasOp {
  op_name : string;
  types : list Dtype;
  arguments : list Argument;
  check_dims : M unit;
  setup_order : M unit;
  py_decls : string;
  py_ensure_output : PyM unit
}.

Definition has_order (op : BlasOp) : bool := existsb ismatrix (arguments op).
Definition matrix_args (op : BlasOp) := filter ismatrix (arguments op).
Definition array_args (op : BlasOp) := filter isarray (arguments op).
Definition args_per_class (op : BlasOp) (cl : ArgClass) :=
  filter (fun a => ArgClass_eqb (arg_class a) cl) (arguments op).
Definition size_args (op : BlasOp) := args_per_class op Csize.
(** [simple_args]: arrays, [scalar]s and [trans]es. *)
Definition simple_args (op : BlasOp) :=
  filter (fun a => isarray a || ArgClass_eqb (arg_class a) Cscalar
                   || ArgClass_eqb (arg_class a) Ctrans) (arguments op).
Definition py_args (op : BlasOp) :=
  filter (fun a => isarray a || ArgClass_eqb (arg_class a) Cscalar)
    (arguments op).

Definition gemv_op : BlasOp :=
  mkBlasOp "gemv" [float; double]
    [trans "transA"; size "M"; size "N"; scalar "alpha" None;
     matrix "A" false; size "lda"; vector "X" false; inc "incX";
     scalar "beta" (Some "0.0"); vector "Y" true; inc "incY"]
    check_dims_gemv setup_order_gemv "cdef size_t Yshp" py_ensure_output_gemv.

Definition gemm_op : BlasOp :=
  mkBlasOp "gemm" [float; double]
    [trans "transA"; trans "transB"; size "M"; size "N"; size "K";
     scalar "alpha" None; matrix "A" false; size "lda";
     matrix "B" false; size "ldb"; scalar "beta" None;
     matrix "C" true; size "ldc"]
    check_dims_gemm setup_order_gemm "cdef size_t[2] Cshp"
    py_ensure_output_gemm.

Definition ger_op : BlasOp :=
  mkBlasOp "ger" [float; double]
    [size "M"; size "N"; scalar "alpha" None;
     vector "X" false; inc "incX"; vector "Y" false; inc "incY";
     matrix "A" true; size "lda"]
    check_dims_ger setup_order_ger "cdef size_t[2] Ashp" py_ensure_output_ger.

Definition make_ops : list BlasOp := [gemv_op; gemm_op; ger_op].
Definition OPS := make_ops.

(* ------------------------------------------------------------------ *)
(** ** Renderers of [BlasOp] *)

Definition format_arguments (op : BlasOp) (ctype : string) : string :=
  (if has_order op then "cb_order order, " else "")
  ++ join ", " (map (fun a => format_as_arg a ctype) (arguments op)).

Definition format_blas_args (op : BlasOp) (ctype : string) : string :=
  join ", " (map (fun a => format_as_callarg a ctype) (arguments op)).

Definition format_call_args (op : BlasOp) : string :=
  (if has_order op then "ORDER " else "")
  ++ join ", " (map format_as_call (arguments op)).

Definition format_simple_args (op : BlasOp) (ctype arraytype : string) : string :=
  join ", " (map (fun a => format_simple_arg a ctype arraytype) (simple_args op)).

Definition format_simple_calls (op : BlasOp) (pre post : string) : string :=
  join ", " (map (fun a => format_simple_call a pre post) (simple_args op)).

Definition format_pyargs_list (op : BlasOp) : list string :=
  map format_pyarg (py_args op)
  ++ map (fun t => "trans_" ++ lower (last_char (name t)) ++ "=False")
         (args_per_class op Ctrans)
  ++ map (fun a => "overwrite_" ++ lower (name a) ++ "=False")
         (filter isoutput (array_args op)).

Definition format_pyargs (op : BlasOp) : string := join ", " (format_pyargs_list op).

(* ------------------------------------------------------------------ *)
(** ** The generated [GpuArray_r<op>] ([ARRAYBLAS_TMPL]) *)

Definition firsta (op : BlasOp) : string :=
  name (hd (vector "" false) (array_args op)).

Definition ndcond (fr : Frame) (a : Argument) : bool :=
  if ismatrix a then negb (nd (arrs fr (name a)) =? 2)%nat
  else negb (nd (arrs fr (name a)) =? 1)%nat.

Definition typecond (fr : Frame) (first : string) (a : Argument) : bool :=
  negb (typecode_eqb (ga_typecode (arrs fr (name a)))
                     (ga_typecode (arrs fr first))).

Definition aligncond (fr : Frame) (a : Argument) : bool :=
  negb (flag_set (flags (arrs fr (name a))) GA_ALIGNED).

(** [gpuarray_get_elsize] on the two element types that reach it. *)
Definition gpuarray_get_elsize (t : typecode) : Z :=
  match t with GA_FLOAT => 4 | GA_DOUBLE => 8 | GA_OTHER_TYPE _ => 0 end%Z.

(** The test of the contiguity block: [!GpuArray_ISONESEGMENT(X)] for a
    matrix, [X->strides[0] < 0] for a vector. *)
Definition defective (a : Argument) (X : GpuArray) : bool :=
  if ismatrix a then negb (GpuArray_ISONESEGMENT X) else (stride0 X <? 0)%Z.

(** The contiguity block the template emits for one array argument. *)
Definition contiguity_step (a : Argument) : M unit :=
  fr <- get;;
  let X := arrs fr (name a) in
  if defective a X then
    if isoutput a then goto_cleanup GA_VALUE_ERROR
    else if nocopy fr then c_return GA_COPY_ERROR
    else
      rt <- ask;;
      let '(err, cp) := GpuArray_copy rt X
                          (if ismatrix a then GA_F_ORDER else GA_ANY_ORDER) in
      if negb (err =? GA_NO_ERROR)%Z then goto_cleanup err
      else modify (store_copy (name a) cp);;; modify (point_to_copy (name a))
  else ret tt.

(** The C conversions of [Xp->strides[0] / elsize] passed to [int incX]
    (LP64): the [ssize_t] stride is converted to [size_t] (mod 2^64) for the
    division by the [size_t] [elsize], and the quotient is narrowed to a
    32-bit [int], keeping the low 32 bits as two's complement (what GCC and
    Clang do). *)
Definition to_size_t (z : Z) : Z := (z mod 2 ^ 64)%Z.

Definition to_int (z : Z) : Z :=
  let r := (z mod 2 ^ 32)%Z in if (r <? 2 ^ 31)%Z then r else (r - 2 ^ 32)%Z.

Definition c_inc (stride elsz : Z) : Z := to_int (to_size_t stride / elsz)%Z.

(** The value [format_as_callarg] renders for one argument. *)
Definition blas_val (fr : Frame) (ctype : string) (a : Argument) : bval :=
  match arg_class a with
  | Cscalar => BScal ctype (scals fr (name a))
  | Csize => BSize (sizes fr (lower (name a)))
  | Cinc => BInc (c_inc (stride0 (deref fr (last_char (name a)))) (elsize fr))
  | Ctrans => BTrans (transs fr (name a))
  | Cmatrix | Cvector =>
      BArr (data (deref fr (name a)))
           (Z.quot (offset (deref fr (name a))) (elsize fr))
  end.

Definition blas_vals (op : BlasOp) (ctype : string) (fr : Frame) : list bval :=
  map (blas_val fr ctype) (arguments op).

(** The property lookups, [blas->setup] and the backend call, on the
    arrays the contiguity block left ([Ap], ...). *)
Definition GpuArray_r_call (op : BlasOp) : M Z :=
  let fa := firsta op in
  rt <- ask;;
  fr <- get;;
  let Fp := deref fr fa in
  let '(err, ctx) := prop_ctx rt Fp in
  if negb (err =? GA_NO_ERROR)%Z then goto_cleanup err else
  let '(err, blas) := prop_blas_ops rt Fp ctx in
  if negb (err =? GA_NO_ERROR)%Z then goto_cleanup err else
  let err := blas_setup rt blas ctx in
  if negb (err =? GA_NO_ERROR)%Z then goto_cleanup err else
  if typecode_eqb (ga_typecode Fp) GA_FLOAT
  then ret (blas_entry rt blas ("s" ++ op_name op) (o fr) (blas_vals op "float" fr))
  else ret (blas_entry rt blas ("d" ++ op_name op) (o fr) (blas_vals op "double" fr)).

(** The body up to the [cleanup:] label. *)
Definition GpuArray_r_body (op : BlasOp) : M Z :=
  let fa := firsta op in
  fr <- get;;
  let F := arrs fr fa in
  if negb (typecode_eqb (ga_typecode F) GA_FLOAT)
     && negb (typecode_eqb (ga_typecode F) GA_DOUBLE)
  then c_return GA_INVALID_ERROR else
  if existsb (ndcond fr) (array_args op)
     || existsb (typecond fr fa) (array_args op)
  then c_return GA_VALUE_ERROR else
  if existsb (aligncond fr) (array_args op)
  then c_return GA_UNALIGNED_ERROR else
  check_dims op;;;
  modify (set_elsize (gpuarray_get_elsize (ga_typecode F)));;;
  for_each (array_args op) contiguity_step;;;
  setup_order op;;;
  GpuArray_r_call op.

Definition is_copy (p : ptr) : bool := match p with PCopy => true | POrig => false end.

(** [cleanup:]: [if (Ap == &copyA) GpuArray_clear(&copyA);] per input. *)
Definition cleanup (op : BlasOp) (fr : Frame) : Frame :=
  fold_left (fun fr a => if negb (isoutput a) && is_copy (ptrs fr (name a))
                         then clear_copy (name a) fr else fr)
            (array_args op) fr.

(** The whole function: the returned code and the final frame. *)
Definition GpuArray_r (op : BlasOp) (rt : Runtime) (fr : Frame) : Z * Frame :=
  match GpuArray_r_body op rt fr with
  | inl (err, fr') => (err, cleanup op fr')
  | inr (ExGoto err, fr') => (err, cleanup op fr')
  | inr (ExReturn err, fr') => (err, fr')
  end.

(** The frame on entry: parameters given, no copy, locals unset. *)
Definition entry_frame (A : string -> GpuArray) (T : string -> cb_transpose)
    (S : string -> Q) (noc : bool) : Frame :=
  mkFrame A T S noc (fun _ => POrig) (fun _ => null_array) (fun _ => 0%Z)
    cb_row 0%Z [].

(** The frame on entry with the locals ([copies], [size_t]s, [o],
    [elsize], [live]) holding any values: the generated function sets
    every local before it reads it. *)
Definition start_frame (A : string -> GpuArray) (T : string -> cb_transpose)
    (S : string -> Q) (noc : bool) (cp : string -> GpuArray) (sz : string -> Z)
    (o0 : cb_order) (el : Z) (lv : list string) : Frame :=
  mkFrame A T S noc (fun _ => POrig) cp sz o0 el lv.

(** The array the contiguity block of [GpuArray_r<op>] hands on for
    argument [a]: the copy made by [GpuArray_copy] (Fortran order for a
    matrix, any order for a vector) when [X] is not one-segment (or, for a
    vector, has a negative stride), [X] itself otherwise. *)
Definition fallback_array (rt : Runtime) (a : Argument) (X : GpuArray) : GpuArray :=
  if defective a X
  then snd (GpuArray_copy rt X (if ismatrix a then GA_F_ORDER else GA_ANY_ORDER))
  else X.

(* ------------------------------------------------------------------ *)
(** ** The generated binding ([BLAS_PYX_TMPL]) *)

(** [pygpu_blas_r<op>(..., bint nocopy)]: calls [GpuArray_r<op>] on the
    [.ga] of each array and raises on a non-zero code. *)
Definition pygpu_blas_r (op : BlasOp) (noc : bool) : PyM unit :=
  fr <-- pget;;
  rt <-- pask;;
  let '(err, _) := GpuArray_r op rt
                     (entry_frame (py_ga fr) (py_trans fr) (py_scals fr) noc) in
  if negb (err =? GA_NO_ERROR)%Z then raise (GpuArrayException err)
  else pret tt.

(** [def <op>(...)]: transpose locals, [py_ensure_output], copy of an
    output not to be overwritten, the call with [nocopy = 0], and the
    returned output arrays. *)
Definition py_blas (op : BlasOp) : PyM (list GpuArray) :=
  _ <-- pfor_each (matrix_args op) (fun m =>
          if isoutput m then pret tt else
          fr <-- pget;;
          pmodify (pset_trans ("trans" ++ name m)
                    (if py_bools fr ("trans_" ++ lower (name m))
                     then cb_trans else cb_no_trans)));;
  _ <-- py_ensure_output op;;
  _ <-- pfor_each (array_args op) (fun a =>
          if negb (isoutput a) then pret tt else
          fr <-- pget;;
          if py_bools fr ("overwrite_" ++ lower (name a)) then pret tt else
          rt <-- pask;;
          cp <-- pcall (pygpu_copy rt (py_ga fr (name a)));;
          pmodify (pset_arr (name a) cp));;
  _ <-- pygpu_blas_r op false;;
  fr <-- pget;;
  pret (map (fun a => py_ga fr (name a)) (filter isoutput (array_args op))).

(** The nocopy literal of [pygpu_blas_r${op.name}(..., 0)]. *)
Definition pyx_nocopy_literal : string := "0".

(* ------------------------------------------------------------------ *)
(** ** Symbol names of the generated surfaces *)

(** [${type.c}${op.name}]: the dispatch-table entry of [GENERIC_TMPL], the
    field of [gpuarray_blas_ops] in [BUFFERBLAS_TMPL], and the function
    [typec ## ${op.name}] the [GENERIC_TMPL] macro defines. *)
Definition backend_symbol (ty : Dtype) (op : BlasOp) : string :=
  c ty ++ op_name op.

(** [GpuArray_r${op.name}] of [BLAS_TMPL] and [ARRAYBLAS_TMPL]. *)
Definition simple_symbol (op : BlasOp) : string := "GpuArray_r" ++ op_name op.

(** [#define GpuArray_${type.c}${op.name} GpuArray_r${op.name}]. *)
Definition simple_alias (ty : Dtype) (op : BlasOp) : string :=
  "GpuArray_" ++ c ty ++ op_name op.

(** [def ${op.name}(...)] of [BLAS_PYX_TMPL]. *)
Definition highlevel_symbol (op : BlasOp) : string := op_name op.

(* ------------------------------------------------------------------ *)
(** ** The five artifacts

    Each renderer produces the descriptor-dependent lines of its template
    in template order; the constant text of a template is kept as its
    first line. *)

Definition concat_map {A} (f : A -> string) (l : list A) : string :=
  fold_right (fun x acc => f x ++ acc) "" l.

Definition NL : string := String (ascii_of_nat 10) EmptyString.

Definition render_generic (ops : list BlasOp) : string :=
  "/* This file is generated by gen_blas.py in the root of the distribution */" ++ NL
  ++ concat_map (fun op =>
       "#define " ++ upper (op_name op) ++ "(dtype, typec, TYPEC)" ++ NL
       ++ "  static int typec ## " ++ op_name op ++ "(" ++ format_arguments op "dtype" ++ ") {" ++ NL
       ++ "    PRE_CALL __GLUE(PREFIX(typec, TYPEC), " ++ op_name op ++ ")(INIT_ARGS "
       ++ format_call_args op ++ " TRAIL_ARGS);" ++ NL
       ++ concat_map (fun ty => String.concat "" [upper (op_name op); "("; dt_name ty; ", "; c ty; ", "; upper (c ty); ")"] ++ NL)
            (types op)) ops
  ++ "GPUARRAY_LOCAL gpuarray_blas_ops __GLUE(NAME, _ops) = {" ++ NL
  ++ "  setup," ++ NL ++ "  teardown," ++ NL
  ++ concat_map (fun op => concat_map (fun ty => "  " ++ c ty ++ op_name op ++ "," ++ NL) (types op)) ops
  ++ "  sgemmBatch," ++ NL ++ "  dgemmBatch," ++ NL ++ "};" ++ NL.

Definition render_bufferblas (ops : list BlasOp) : string :=
  "/* This file is generated by gen_blas.py in the root of the distribution */" ++ NL
  ++ concat_map (fun op => concat_map (fun ty =>
       "  int (*" ++ c ty ++ op_name op ++ ")(" ++ format_arguments op (dt_name ty) ++ ");" ++ NL)
       (types op)) ops.

Definition render_blas (ops : list BlasOp) : string :=
  "/* This file is generated by gen_blas.py in the root of the distribution */" ++ NL
  ++ concat_map (fun op =>
       "GPUARRAY_PUBLIC int " ++ "GpuArray_r" ++ op_name op ++ "("
       ++ format_simple_args op "double" "GpuArray *" ++ "," ++ NL
       ++ "                                        int nocopy);" ++ NL
       ++ concat_map (fun ty => "#define " ++ "GpuArray_" ++ c ty ++ op_name op ++ " " ++ "GpuArray_r" ++ op_name op ++ NL)
            (types op)) ops.

Definition render_arrayblas (ops : list BlasOp) : string :=
  "/* This file is generated by gen_blas.py in the root of the distribution */" ++ NL
  ++ concat_map (fun op =>
       "int " ++ "GpuArray_r" ++ op_name op ++ "(" ++ format_simple_args op "double" "GpuArray *" ++ "," ++ NL
       ++ "                         int nocopy) {" ++ NL
       ++ "  if (" ++ firsta op ++ "p->typecode == GA_FLOAT)" ++ NL
       ++ "    err = blas->s" ++ op_name op ++ "(o, " ++ format_blas_args op "float" ++ ");" ++ NL
       ++ "  else" ++ NL
       ++ "    err = blas->d" ++ op_name op ++ "(o, " ++ format_blas_args op "double" ++ ");" ++ NL
       ++ "}" ++ NL) ops.

Definition render_blas_pyx (ops : list BlasOp) : string :=
  "# This file is generated by gen_blas.py in the root of the distribution" ++ NL
  ++ concat_map (fun op =>
       "    int " ++ "GpuArray_r" ++ op_name op ++ "(" ++ format_simple_args op "double" "_GpuArray *" ++ "," ++ NL
       ++ "                             int nocopy)" ++ NL) ops
  ++ concat_map (fun op =>
       "cdef api int pygpu_blas_r" ++ op_name op ++ "(" ++ format_simple_args op "double" "GpuArray " ++ "," ++ NL
       ++ "                      bint nocopy) except -1:" ++ NL
       ++ "    err = " ++ "GpuArray_r" ++ op_name op ++ "(" ++ format_simple_calls op "&" ".ga" ++ ", nocopy);" ++ NL) ops
  ++ concat_map (fun op =>
       "def " ++ op_name op ++ "(" ++ format_pyargs op ++ "):" ++ NL
       ++ "    " ++ py_decls op ++ NL
       ++ "    pygpu_blas_r" ++ op_name op ++ "(" ++ format_simple_calls op "" "" ++ ", "
       ++ pyx_nocopy_literal ++ ")" ++ NL) ops.

(** The file system as a map from paths to contents. *)
Definition FS := string -> option string.

(** [with open(path, 'w') as f: f.write(text)]: truncate and write. *)
Definition write_file (path text : string) (fs : FS) : FS :=
  fun p => if String.eqb p path then Some text else fs p.

Definition artifact_paths : list string :=
  ["src/generic_blas.inc.c"; "src/gpuarray/buffer_blas.h"; "src/gpuarray/blas.h";
   "src/gpuarray_array_blas.c"; "pygpu/blas.pyx"].

(** The module body: render the five templates from [OPS], then write. *)
Definition gen_blas_main (fs : FS) : FS :=
  let ops := make_ops in
  let generic := render_generic ops in
  let bufferblas := render_bufferblas ops in
  let blas := render_blas ops in
  let arrayblas := render_arrayblas ops in
  let blas_pyx := render_blas_pyx ops in
  write_file "pygpu/blas.pyx" blas_pyx
    (write_file "src/gpuarray_array_blas.c" arrayblas
      (write_file "src/gpuarray/blas.h" blas
        (write_file "src/gpuarray/buffer_blas.h" bufferblas
          (write_file "src/generic_blas.inc.c" generic fs)))).

(* ------------------------------------------------------------------ *)
(** ** Definitions used by the reasoning: Hoare triples over [M], frame
    invariants, collaborator assumptions, substring tests and concrete
    inputs *)

Definition outcome_ok {A} (Q : A -> Frame -> Prop) (E : exit -> Frame -> Prop)
    (r : (A * Frame) + (exit * Frame)) : Prop :=
  match r with
  | inl (x, f) => Q x f
  | inr (e, f) => E e f
  end.

Definition triple {A} (rt : Runtime) (P : Frame -> Prop) (m : M A)
    (Q : A -> Frame -> Prop) (E : exit -> Frame -> Prop) : Prop :=
  forall fr, P fr -> outcome_ok Q E (m rt fr).

(** The part of a frame the resource invariant talks about. *)
Definition res_eq (fr fr' : Frame) : Prop :=
  live fr' = live fr /\ ptrs fr' = ptrs fr /\ nocopy fr' = nocopy fr
  /\ arrs fr' = arrs fr.

Definition outcome_frame {A} (r : (A * Frame) + (exit * Frame)) : Frame :=
  match r with inl (_, f) => f | inr (_, f) => f end.

(** A snippet that leaves copies, pointers, parameters and [nocopy] alone. *)
Definition keeps {A} (m : M A) : Prop :=
  forall rt fr, res_eq fr (outcome_frame (m rt fr)).

(** A snippet whose only exits are [goto cleanup] with [GA_VALUE_ERROR]. *)
Definition only_goto_value {A} (m : M A) : Prop :=
  forall rt fr, match m rt fr with
                | inr (ExReturn _, _) => False
                | inr (ExGoto e, _) => e = GA_VALUE_ERROR
                | inl _ => True
                end.

(** A snippet whose only exits are [return GA_VALUE_ERROR]. *)
Definition only_return_value {A} (m : M A) : Prop :=
  forall rt fr, match m rt fr with
                | inr (ExReturn e, _) => e = GA_VALUE_ERROR
                | inr (ExGoto _, _) => False
                | inl _ => True
                end.

(** The assumptions the generic pipeline lemmas make on a descriptor;
    the three descriptors of [OPS] satisfy them. *)
Definition well_behaved (op : BlasOp) : Prop :=
  keeps (check_dims op) /\ only_return_value (check_dims op)
  /\ keeps (setup_order op) /\ only_goto_value (setup_order op).

(** Every allocated copy belongs to an input array that points to it, and
    none is allocated while [nocopy] is set. *)
Definition copies_inv (op : BlasOp) (fr : Frame) : Prop :=
  (nocopy fr = true -> live fr = [])
  /\ forall k, In k (live fr) ->
       exists a, In a (array_args op) /\ isoutput a = false /\ name a = k
                 /\ ptrs fr k = PCopy.

(** Exits: a [goto cleanup] keeps the invariant, a [return] owns nothing. *)
Definition copies_exit (op : BlasOp) (e : exit) (fr : Frame) : Prop :=
  match e with
  | ExGoto _ => copies_inv op fr
  | ExReturn _ => live fr = []
  end.

Definition exit_code (e : exit) : Z := match e with ExReturn z | ExGoto z => z end.

(** The external collaborators never report [GA_COPY_ERROR] themselves. *)
Definition runtime_no_copy_error (rt : Runtime) : Prop :=
  (forall a ord, fst (GpuArray_copy rt a ord) <> GA_COPY_ERROR)
  /\ (forall a, fst (prop_ctx rt a) <> GA_COPY_ERROR)
  /\ (forall a ctx, fst (prop_blas_ops rt a ctx) <> GA_COPY_ERROR)
  /\ (forall b ctx, blas_setup rt b ctx <> GA_COPY_ERROR)
  /\ (forall b s ord vs, blas_entry rt b s ord vs <> GA_COPY_ERROR)
  /\ (forall sh t, pygpu_empty rt sh t <> inl (GpuArrayException GA_COPY_ERROR))
  /\ (forall sh t, pygpu_zeros rt sh t <> inl (GpuArrayException GA_COPY_ERROR))
  /\ (forall a, pygpu_copy rt a <> inl (GpuArrayException GA_COPY_ERROR)).

Definition no_copy_exit (e : exit) (_ : Frame) : Prop := exit_code e <> GA_COPY_ERROR.

Definition py_no_copy {A} (rt : Runtime) (m : PyM A) : Prop :=
  forall fr, match m rt fr with
             | inr (e, _) => e <> GpuArrayException GA_COPY_ERROR
             | inl _ => True
             end.

(** [s] occurs in [t]. *)
Definition occurs (s t : string) : bool :=
  match String.index 0 s t with Some _ => true | None => false end.

(** A runtime whose every call succeeds; a copy is C- and F-contiguous,
    aligned, with stride 4, in buffer 99. *)
Definition ok_runtime : Runtime := mkRuntime
  (fun a _ => (GA_NO_ERROR, mkGpuArray 99%nat 0%Z (nd a) (dimensions a)
                              (map (fun _ => 4%Z) (dimensions a))
                              (Z.lor (Z.lor GA_C_CONTIGUOUS GA_F_CONTIGUOUS) GA_ALIGNED)
                              (ga_typecode a)))
  (fun _ => (GA_NO_ERROR, 7%nat))
  (fun _ _ => (GA_NO_ERROR, 8%nat))
  (fun _ _ => GA_NO_ERROR)
  (fun _ _ _ _ => GA_NO_ERROR)
  (fun sh t => inr (mkGpuArray 50%nat 0%Z (length sh) sh (map (fun _ => 4%Z) sh)
                      (Z.lor (Z.lor GA_C_CONTIGUOUS GA_F_CONTIGUOUS) GA_ALIGNED) t))
  (fun sh t => inr (mkGpuArray 51%nat 0%Z (length sh) sh (map (fun _ => 4%Z) sh)
                      (Z.lor (Z.lor GA_C_CONTIGUOUS GA_F_CONTIGUOUS) GA_ALIGNED) t))
  (fun a => inr a).

(** Arrays by name, for building call frames. *)
Fixpoint by_name {V} (d : V) (l : list (string * V)) (k : string) : V :=
  match l with
  | [] => d
  | (k', v) :: l' => if String.eqb k k' then v else by_name d l' k
  end.

Definition aligned_c : Z := Z.lor GA_C_CONTIGUOUS GA_ALIGNED.

Definition aligned_f : Z := Z.lor GA_F_CONTIGUOUS GA_ALIGNED.

Definition aligned_cf : Z := Z.lor (Z.lor GA_C_CONTIGUOUS GA_F_CONTIGUOUS) GA_ALIGNED.

Definition vec (buf : nat) (n : Z) (st : Z) : GpuArray :=
  mkGpuArray buf 0%Z 1 [n] [st] aligned_cf GA_FLOAT.

Definition mat (buf : nat) (r c0 : Z) (fl : Z) : GpuArray :=
  mkGpuArray buf 0%Z 2 [r; c0] [] fl GA_FLOAT.

(** Number of occurrences of [s] in [t]. *)
Fixpoint count_sub (s t : string) : nat :=
  match t with
  | EmptyString => if String.eqb s "" then 1 else 0
  | String _ t' => (if String.prefix s t then 1 else 0) + count_sub s t'
  end.

(** Whether a step left the function ([return] or [goto cleanup]). *)
Definition is_exit {A} (r : (A * Frame) + (exit * Frame)) : bool :=
  match r with inl _ => false | inr _ => true end.

(** The three checks [GpuArray_r<op>] makes before [check_dims] (element
    type of the first array, rank and type agreement, alignment) pass. *)
Definition prechecks_pass (op : BlasOp) (fr : Frame) : bool :=
  let fa := firsta op in
  let F := arrs fr fa in
  negb (negb (typecode_eqb (ga_typecode F) GA_FLOAT)
        && negb (typecode_eqb (ga_typecode F) GA_DOUBLE))
  && negb (existsb (ndcond fr) (array_args op) || existsb (typecond fr fa) (array_args op))
  && negb (existsb (aligncond fr) (array_args op)).

(** A [gemv] call with [nocopy] set whose matrix [A] (3 x 4, aligned) is
    neither C- nor Fortran-contiguous and whose [Y] has length 5. *)
Definition c1_frame : Frame :=
  entry_frame (by_name null_array [("A", mat 1 3 4 GA_ALIGNED); ("X", vec 2 4 4);
                                   ("Y", vec 3 5 4)])
    (fun _ => cb_no_trans) (fun _ => 0%Q) true.

(** A [gemv] binding call with a vector for [A], no [Y] and [beta = 1]. *)
Definition c5_frame : PyFrame :=
  mkPyFrame (by_name None [("A", Some (vec 1 3 4)); ("X", Some (vec 2 4 4))])
    (fun _ => 1%Q) (fun _ => false) (fun _ => cb_no_trans) [].

(** A [gemv] binding call: [A] 3 x 4 C-contiguous, [X] of length 4, no [Y],
    [beta = 0]. *)
Definition gemv_py_frame : PyFrame :=
  mkPyFrame (by_name None [("A", Some (mat 1 3 4 aligned_c)); ("X", Some (vec 2 4 4))])
    (fun _ => 0%Q) (fun _ => false) (fun _ => cb_no_trans) [].

(** Two frames with the same parameters and [size_t]/[order]/[elsize]
    locals. *)
Definition same_params (fr fr' : Frame) : Prop :=
  arrs fr' = arrs fr /\ transs fr' = transs fr /\ scals fr' = scals fr
  /\ nocopy fr' = nocopy fr /\ sizes fr' = sizes fr /\ o fr' = o fr
  /\ elsize fr' = elsize fr.

(** Two frames that differ at most in their [size_t] locals. *)
Definition only_sizes (fr fr' : Frame) : Prop :=
  arrs fr' = arrs fr /\ transs fr' = transs fr /\ scals fr' = scals fr
  /\ nocopy fr' = nocopy fr /\ ptrs fr' = ptrs fr /\ copies fr' = copies fr
  /\ o fr' = o fr /\ elsize fr' = elsize fr /\ live fr' = live fr.

(** Rows and columns of [op(X)] for the transposition [t], as the
    generated [check_dims] code reads them off [dimensions]. *)
Definition op_rows (t : cb_transpose) (X : GpuArray) : Z :=
  if cb_transpose_eqb t cb_no_trans then dim X 0 else dim X 1.

Definition op_cols (t : cb_transpose) (X : GpuArray) : Z :=
  if cb_transpose_eqb t cb_no_trans then dim X 1 else dim X 0.

(** No parameter without a default ([=]) follows one with a default, as
    Cython requires of a [def] signature. *)
Fixpoint defaults_last (seen : bool) (ps : list string) : bool :=
  match ps with
  | [] => true
  | p :: ps' => let d := occurs "=" p in (negb seen || d) && defaults_last (seen || d) ps'
  end.

(** The value and final frame of a binding run, [d] on an exception. *)
Definition py_outcome {A} (d : A) (r : (A * PyFrame) + (PyExn * PyFrame)) : A * PyFrame :=
  match r with inl p => p | inr (_, f) => (d, f) end.

(** A [gemv] call: [A] 3 x 4 aligned but not contiguous (so it is copied),
    [X] of length 4, [Y] of length 3; locals start at arbitrary values. *)
Definition w_gemv_arrays : string -> GpuArray :=
  by_name null_array [("A", mat 1 3 4 GA_ALIGNED); ("X", vec 2 4 4); ("Y", vec 3 3 4)].

Definition w_gemv_start : Frame :=
  start_frame w_gemv_arrays (fun _ => cb_no_trans) (fun _ => 1%Q) false
    (fun _ => null_array) (fun _ => 9%Z) cb_row 0%Z [].

Definition w_gemv_end : Frame := outcome_frame (GpuArray_r_body gemv_op ok_runtime w_gemv_start).

(** A [gemm] call: [A] 3 x 2 Fortran-contiguous, [B] 2 x 5 and [C] 3 x 5
    C-contiguous. *)
Definition w_gemm_arrays : string -> GpuArray :=
  by_name null_array [("A", mat 1 3 2 aligned_f); ("B", mat 2 2 5 aligned_c);
                      ("C", mat 3 3 5 aligned_c)].

Definition w_gemm_start : Frame :=
  start_frame w_gemm_arrays (fun _ => cb_no_trans) (fun _ => 1%Q) false
    (fun _ => null_array) (fun _ => 9%Z) cb_row 0%Z [].

Definition w_gemm_end : Frame := outcome_frame (GpuArray_r_body gemm_op ok_runtime w_gemm_start).

(** A [ger] call: [X] of length 3, [Y] of length 5, [A] 3 x 5
    C-contiguous. *)
Definition w_ger_arrays : string -> GpuArray :=
  by_name null_array [("X", vec 1 3 4); ("Y", vec 2 5 4); ("A", mat 3 3 5 aligned_c)].

Definition w_ger_start : Frame :=
  start_frame w_ger_arrays (fun _ => cb_no_trans) (fun _ => 1%Q) false
    (fun _ => null_array) (fun _ => 9%Z) cb_row 0%Z [].

Definition w_ger_end : Frame := outcome_frame (GpuArray_r_body ger_op ok_runtime w_ger_start).

(** A [gemv] binding call given an output [Y], with [overwrite_y] false. *)
Definition w_py_given : PyFrame :=
  mkPyFrame (by_name None [("A", Some (mat 1 3 4 aligned_c)); ("X", Some (vec 2 4 4));
                           ("Y", Some (vec 3 3 4))])
    (fun _ => 1%Q) (fun _ => false) (fun _ => cb_no_trans) [].

Definition w_py_given_res := py_outcome [] (py_blas gemv_op ok_runtime w_py_given).

Definition w_py_alloc_res := py_outcome [] (py_blas gemv_op ok_runtime gemv_py_frame).

Definition w_ens_end : PyFrame := snd (py_outcome tt (py_ensure_output_gemv ok_runtime gemv_py_frame)).

(* ================================================================== *)
(** * Reasoning about the generated C function *)

(** ** A Hoare logic for [M]: [P] before, [Q] on fall-through, [E] on a
    [return] or a [goto cleanup]. *)

Section Hoare.
Variable rt : Runtime.
Variable E : exit -> Frame -> Prop.

Lemma triple_ret {A} (P : Frame -> Prop) (Q : A -> Frame -> Prop) (x : A) :
  (forall fr, P fr -> Q x fr) -> triple rt P (ret x) Q E.
Proof. intros H fr Hp. apply H, Hp. Qed.

Lemma triple_bind {A B} P (m : M A) (k : A -> M B) Q R :
  triple rt P m Q E -> (forall x, triple rt (Q x) (k x) R E) ->
  triple rt P (bind m k) R E.
Proof.
  intros Hm Hk fr Hp. specialize (Hm fr Hp). unfold bind.
  destruct (m rt fr) as [[x fr']|[e fr']]; simpl in *; [apply Hk|]; exact Hm.
Qed.

Lemma triple_get {B} P (k : Frame -> M B) R :
  (forall fr0, triple rt (fun fr => P fr /\ fr = fr0) (k fr0) R E) ->
  triple rt P (bind get k) R E.
Proof. intros Hk fr Hp. apply (Hk fr fr). auto. Qed.

Lemma triple_ask {B} P (k : Runtime -> M B) R :
  triple rt P (k rt) R E -> triple rt P (bind ask k) R E.
Proof. intros Hk fr Hp. apply Hk, Hp. Qed.

Lemma triple_modify P (f : Frame -> Frame) (Q : unit -> Frame -> Prop) :
  (forall fr, P fr -> Q tt (f fr)) -> triple rt P (modify f) Q E.
Proof. intros H fr Hp. apply H, Hp. Qed.

Lemma triple_return {A} P e (Q : A -> Frame -> Prop) :
  (forall fr, P fr -> E (ExReturn e) fr) -> triple rt P (c_return e) Q E.
Proof. intros H fr Hp. apply H, Hp. Qed.

Lemma triple_goto {A} P e (Q : A -> Frame -> Prop) :
  (forall fr, P fr -> E (ExGoto e) fr) -> triple rt P (goto_cleanup e) Q E.
Proof. intros H fr Hp. apply H, Hp. Qed.

Lemma triple_pre {A} (P P' : Frame -> Prop) (m : M A) Q :
  (forall fr, P fr -> P' fr) -> triple rt P' m Q E -> triple rt P m Q E.
Proof. intros H Hm fr Hp. apply Hm, H, Hp. Qed.

Lemma triple_if {A} P (b : bool) (m1 m2 : M A) Q :
  (b = true -> triple rt P m1 Q E) -> (b = false -> triple rt P m2 Q E) ->
  triple rt P (if b then m1 else m2) Q E.
Proof. destruct b; auto. Qed.

Lemma triple_for_each {A} (l : list A) (f : A -> M unit) (P : Frame -> Prop) :
  (forall x, In x l -> triple rt P (f x) (fun _ => P) E) ->
  triple rt P (for_each l f) (fun _ => P) E.
Proof.
  induction l as [|x l IH]; intros H; simpl.
  - apply triple_ret; auto.
  - apply triple_bind with (Q := fun _ => P).
    + apply H; left; reflexivity.
    + intros _; apply IH; intros y Hy; apply H; right; exact Hy.
Qed.

End Hoare.

Ltac split_ifs :=
  repeat match goal with
  | |- context [if ?b then _ else _] => destruct b
  end.

Ltac res_triv := unfold res_eq; simpl; repeat split; reflexivity.

Ltac mon := unfold bind, get, ask, modify, ret, c_return, goto_cleanup in *; cbn.

Ltac keeps_tac := intros rt fr; mon; repeat (split_ifs; cbn); res_triv.

Lemma check_dims_gemv_keeps : keeps check_dims_gemv.
Proof. unfold check_dims_gemv; keeps_tac. Qed.
Lemma check_dims_gemm_keeps : keeps check_dims_gemm.
Proof. unfold check_dims_gemm; keeps_tac. Qed.
Lemma check_dims_ger_keeps : keeps check_dims_ger.
Proof. unfold check_dims_ger; keeps_tac. Qed.
Lemma setup_order_gemv_keeps : keeps setup_order_gemv.
Proof. unfold setup_order_gemv; keeps_tac. Qed.
Lemma setup_order_ger_keeps : keeps setup_order_ger.
Proof. unfold setup_order_ger; keeps_tac. Qed.
Lemma setup_order_gemm_keeps : keeps setup_order_gemm.
Proof. unfold setup_order_gemm, order_block_gemm; keeps_tac. Qed.

Ltac goto_tac := intros rt fr; mon; repeat (split_ifs; cbn); auto.

Lemma setup_order_gemv_exits : only_goto_value setup_order_gemv.
Proof. unfold only_goto_value, setup_order_gemv; goto_tac. Qed.
Lemma setup_order_ger_exits : only_goto_value setup_order_ger.
Proof. unfold only_goto_value, setup_order_ger; goto_tac. Qed.
Lemma setup_order_gemm_exits : only_goto_value setup_order_gemm.
Proof. unfold only_goto_value, setup_order_gemm, order_block_gemm; goto_tac. Qed.
Lemma check_dims_gemv_exits : only_return_value check_dims_gemv.
Proof. unfold only_return_value, check_dims_gemv; goto_tac. Qed.
Lemma check_dims_gemm_exits : only_return_value check_dims_gemm.
Proof. unfold only_return_value, check_dims_gemm; goto_tac. Qed.
Lemma check_dims_ger_exits : only_return_value check_dims_ger.
Proof. unfold only_return_value, check_dims_ger; goto_tac. Qed.

Lemma OPS_well_behaved : Forall well_behaved OPS.
Proof.
  repeat constructor; simpl;
    first [ apply check_dims_gemv_keeps | apply check_dims_gemm_keeps
          | apply check_dims_ger_keeps | apply setup_order_gemv_keeps
          | apply setup_order_gemm_keeps | apply setup_order_ger_keeps
          | apply check_dims_gemv_exits | apply check_dims_gemm_exits
          | apply check_dims_ger_exits | apply setup_order_gemv_exits
          | apply setup_order_gemm_exits | apply setup_order_ger_exits ].
Qed.

Lemma triple_keeps {A} rt (P : Frame -> Prop) (m : M A) (Q : A -> Frame -> Prop) E :
  keeps m ->
  (forall fr x fr', P fr -> res_eq fr fr' -> m rt fr = inl (x, fr') -> Q x fr') ->
  (forall fr e fr', P fr -> res_eq fr fr' -> m rt fr = inr (e, fr') -> E e fr') ->
  triple rt P m Q E.
Proof.
  intros Hk HQ HE fr Hp. pose proof (Hk rt fr) as Hr.
  destruct (m rt fr) as [[x fr']|[e fr']] eqn:Em; simpl in *; eauto.
Qed.

(* ------------------------------------------------------------------ *)
(** ** The fallback copies: allocated only for inputs, always released *)

Lemma copies_inv_res op fr fr' :
  copies_inv op fr -> res_eq fr fr' -> copies_inv op fr'.
Proof.
  intros [H1 H2] (El & Ep & En & _). unfold copies_inv.
  rewrite El, Ep, En. auto.
Qed.

Lemma contiguity_step_copies op rt a :
  In a (array_args op) ->
  triple rt (copies_inv op) (contiguity_step a) (fun _ => copies_inv op)
    (copies_exit op).
Proof.
  intros Ha fr Hi. unfold contiguity_step. mon.
  destruct (defective a _) eqn:Ed; simpl; [|exact Hi].
  destruct (isoutput a) eqn:Eo; simpl; [exact Hi|].
  destruct (nocopy fr) eqn:En; simpl; [apply (proj1 Hi En)|].
  destruct (GpuArray_copy rt _ _) as [err cp]; simpl.
  destruct (negb (err =? GA_NO_ERROR)%Z); simpl; [exact Hi|].
  destruct Hi as [_ Hi]. split; simpl; [congruence|].
  intros k [Hk|Hk].
  - subst k. exists a. repeat split; auto. unfold upd. rewrite String.eqb_refl. reflexivity.
  - destruct (Hi k Hk) as (a' & Ha' & Ho' & Hn' & Hp').
    exists a'. repeat split; auto. unfold upd.
    destruct (String.eqb k (name a)); auto.
Qed.

Lemma body_copies op rt :
  well_behaved op ->
  triple rt (fun fr => live fr = [] /\ copies_inv op fr) (GpuArray_r_body op)
    (fun _ => copies_inv op) (copies_exit op).
Proof.
  intros (Hdk & _ & Hsk & Hsx). unfold GpuArray_r_body.
  apply triple_get; intros fr0.
  apply triple_if; intros _; [apply triple_return; intros fr [[Hl _] _]; exact Hl|].
  apply triple_if; intros _; [apply triple_return; intros fr [[Hl _] _]; exact Hl|].
  apply triple_if; intros _; [apply triple_return; intros fr [[Hl _] _]; exact Hl|].
  apply triple_bind with (Q := fun _ fr => live fr = [] /\ copies_inv op fr).
  { apply triple_keeps; auto.
    - intros fr _ fr' [[Hl Hi] _] Hr _. split.
      + destruct Hr as [El _]; congruence.
      + eapply copies_inv_res; eauto.
    - intros fr [e|e] fr' [[Hl Hi] _] Hr _; simpl.
      + destruct Hr as [El _]; congruence.
      + eapply copies_inv_res; eauto. }
  intros _.
  apply triple_bind with (Q := fun _ fr => copies_inv op fr).
  { apply triple_modify. intros fr [_ Hi]. exact Hi. }
  intros _.
  apply triple_bind with (Q := fun _ fr => copies_inv op fr).
  { apply triple_for_each. intros a Ha. apply contiguity_step_copies, Ha. }
  intros _.
  apply triple_bind with (Q := fun _ fr => copies_inv op fr).
  { apply triple_keeps; auto.
    - intros fr _ fr' Hi Hr _. eapply copies_inv_res; eauto.
    - intros fr [e|e] fr' Hi Hr Em; simpl.
      + specialize (Hsx rt fr). rewrite Em in Hsx. destruct Hsx.
      + eapply copies_inv_res; eauto. }
  intros _. unfold GpuArray_r_call.
  apply triple_ask. apply triple_get; intros fr1.
  destruct (prop_ctx rt _) as [err ctx].
  apply triple_if; intros _; [apply triple_goto; intros fr [Hi _]; exact Hi|].
  destruct (prop_blas_ops rt _ _) as [err2 blas].
  apply triple_if; intros _; [apply triple_goto; intros fr [Hi _]; exact Hi|].
  apply triple_if; intros _; [apply triple_goto; intros fr [Hi _]; exact Hi|].
  apply triple_if; intros _; apply triple_ret; intros fr [Hi _]; exact Hi.
Qed.

Lemma cleanup_fold_live (l : list Argument) fr :
  (forall k, In k (live fr) ->
     exists a, In a l /\ isoutput a = false /\ name a = k /\ ptrs fr k = PCopy) ->
  live (fold_left (fun fr a => if negb (isoutput a) && is_copy (ptrs fr (name a))
                               then clear_copy (name a) fr else fr) l fr) = [].
Proof.
  revert fr. induction l as [|a l IH]; intros fr H; simpl.
  - destruct (live fr) as [|k ks] eqn:El; [reflexivity|].
    destruct (H k (or_introl eq_refl)) as (a & [] & _).
  - apply IH. intros k Hk.
    destruct (negb (isoutput a) && is_copy (ptrs fr (name a))) eqn:Ec.
    + simpl in Hk. apply in_remove in Hk as [Hk Hne].
      destruct (H k Hk) as (a' & [->|Ha'] & Ho & Hn & Hp).
      * exfalso. apply Hne. symmetry. exact Hn.
      * exists a'. simpl. auto.
    + destruct (H k Hk) as (a' & [->|Ha'] & Ho & Hn & Hp).
      * subst k. rewrite Ho, Hp in Ec. discriminate.
      * exists a'. auto.
Qed.

Lemma cleanup_live op fr : copies_inv op fr -> live (cleanup op fr) = [].
Proof. intros [_ H]. apply cleanup_fold_live, H. Qed.

Lemma GpuArray_r_live op rt fr :
  well_behaved op -> live fr = [] ->
  live (snd (GpuArray_r op rt fr)) = [].
Proof.
  intros Hw Hl.
  assert (Hi : live fr = [] /\ copies_inv op fr).
  { split; [exact Hl|]. split; [auto|]. rewrite Hl. intros k []. }
  pose proof (body_copies op rt Hw fr Hi) as Hb.
  unfold GpuArray_r.
  destruct (GpuArray_r_body op rt fr) as [[x fr']|[[e|e] fr']]; simpl in *;
    auto using cleanup_live.
Qed.

(* ------------------------------------------------------------------ *)
(** ** With copying permitted, the pipeline itself never reports a
    copy error *)

Lemma body_no_copy_error op rt :
  well_behaved op -> runtime_no_copy_error rt ->
  triple rt (fun fr => nocopy fr = false) (GpuArray_r_body op)
    (fun x _ => x <> GA_COPY_ERROR) no_copy_exit.
Proof.
  intros (Hdk & Hdx & Hsk & Hsx) (Hc & Hp & Hb & Hs & He & _).
  unfold GpuArray_r_body.
  apply triple_get; intros fr0.
  apply triple_if; intros _; [apply triple_return; intros; unfold no_copy_exit; simpl; discriminate|].
  apply triple_if; intros _; [apply triple_return; intros; unfold no_copy_exit; simpl; discriminate|].
  apply triple_if; intros _; [apply triple_return; intros; unfold no_copy_exit; simpl; discriminate|].
  apply triple_bind with (Q := fun _ fr => nocopy fr = false).
  { apply triple_keeps; auto.
    - intros fr _ fr' [Hn _] (_ & _ & En & _) _. congruence.
    - intros fr e fr' _ _ Em. specialize (Hdx rt fr). rewrite Em in Hdx.
      unfold no_copy_exit. destruct e; subst; simpl; [discriminate|destruct Hdx]. }
  intros _.
  apply triple_bind with (Q := fun _ fr => nocopy fr = false).
  { apply triple_modify. intros fr Hn. exact Hn. }
  intros _.
  apply triple_bind with (Q := fun _ fr => nocopy fr = false).
  { apply triple_for_each. intros a _ fr Hn. unfold contiguity_step. mon.
    destruct (defective a _); simpl; [|exact Hn].
    destruct (isoutput a); simpl; [unfold no_copy_exit; simpl; discriminate|].
    rewrite Hn; simpl.
    specialize (Hc (arrs fr (name a)) (if ismatrix a then GA_F_ORDER else GA_ANY_ORDER)).
    destruct (GpuArray_copy rt _ _) as [err cp]; simpl in *.
    destruct (negb (err =? GA_NO_ERROR)%Z); simpl; [exact Hc|exact Hn]. }
  intros _.
  apply triple_bind with (Q := fun _ fr => True).
  { intros fr _. specialize (Hsx rt fr).
    destruct (setup_order op rt fr) as [[]|[[e|e] fr']]; simpl in *; auto.
    destruct Hsx. unfold no_copy_exit; simpl; subst; discriminate. }
  intros _. unfold GpuArray_r_call.
  apply triple_ask. apply triple_get; intros fr1.
  specialize (Hp (deref fr1 (firsta op))).
  destruct (prop_ctx rt _) as [err ctx]; simpl in Hp.
  apply triple_if; intros _; [apply triple_goto; intros; exact Hp|].
  specialize (Hb (deref fr1 (firsta op)) ctx).
  destruct (prop_blas_ops rt _ _) as [err2 blas]; simpl in Hb.
  apply triple_if; intros _; [apply triple_goto; intros; exact Hb|].
  apply triple_if; intros _; [apply triple_goto; intros; apply Hs|].
  apply triple_if; intros _; apply triple_ret; intros; apply He.
Qed.

Lemma GpuArray_r_no_copy_error op rt fr :
  well_behaved op -> runtime_no_copy_error rt -> nocopy fr = false ->
  fst (GpuArray_r op rt fr) <> GA_COPY_ERROR.
Proof.
  intros Hw Hr Hn. pose proof (body_no_copy_error op rt Hw Hr fr Hn) as Hb.
  unfold GpuArray_r.
  destruct (GpuArray_r_body op rt fr) as [[x fr']|[[e|e] fr']]; simpl in *; auto.
Qed.

(** ** The binding never raises a copy error *)

Section PyNoCopy.
Variable rt : Runtime.

Lemma py_no_copy_bind {A B} (m : PyM A) (k : A -> PyM B) :
  py_no_copy rt m -> (forall x, py_no_copy rt (k x)) -> py_no_copy rt (pbind m k).
Proof.
  intros Hm Hk fr. specialize (Hm fr). unfold pbind.
  destruct (m rt fr) as [[x fr']|[e fr']]; [apply Hk|exact Hm].
Qed.

Lemma py_no_copy_ret {A} (x : A) : py_no_copy rt (pret x).
Proof. intros fr; exact I. Qed.
Lemma py_no_copy_get : py_no_copy rt pget.
Proof. intros fr; exact I. Qed.
Lemma py_no_copy_ask : py_no_copy rt pask.
Proof. intros fr; exact I. Qed.
Lemma py_no_copy_modify f : py_no_copy rt (pmodify f).
Proof. intros fr; exact I. Qed.
Lemma py_no_copy_raise {A} e : e <> GpuArrayException GA_COPY_ERROR ->
  py_no_copy rt (@raise A e).
Proof. intros H fr; exact H. Qed.
Lemma py_no_copy_call {A} (r : PyExn + A) :
  r <> inl (GpuArrayException GA_COPY_ERROR) -> py_no_copy rt (pcall r).
Proof. intros H fr. destruct r as [e|x]; simpl; [congruence|exact I]. Qed.

Lemma py_no_copy_bind_ask {B} (k : Runtime -> PyM B) :
  py_no_copy rt (k rt) -> py_no_copy rt (pbind pask k).
Proof. intros H fr. apply H. Qed.

Lemma py_no_copy_for_each {A} (l : list A) (f : A -> PyM unit) :
  (forall x, py_no_copy rt (f x)) -> py_no_copy rt (pfor_each l f).
Proof.
  intros H. induction l as [|x l IH]; simpl.
  - apply py_no_copy_ret.
  - apply py_no_copy_bind; auto.
Qed.

End PyNoCopy.

Ltac py_no_copy_tac :=
  repeat (cbv beta zeta;
    match goal with
    | |- py_no_copy _ (pbind pask _) => apply py_no_copy_bind_ask
    | |- py_no_copy _ (pbind _ _) => apply py_no_copy_bind; [|intros ?]
    | |- py_no_copy _ (pret _) => apply py_no_copy_ret
    | |- py_no_copy _ pget => apply py_no_copy_get
    | |- py_no_copy _ (pmodify _) => apply py_no_copy_modify
    | |- py_no_copy _ (raise _) => apply py_no_copy_raise; discriminate
    | |- py_no_copy _ (pcall _) => apply py_no_copy_call
    | |- py_no_copy _ (if ?b then _ else _) => destruct b
    | |- py_no_copy _ (match ?x with _ => _ end) => destruct x
    end).

Lemma py_ensure_output_no_copy op rt :
  In op OPS -> runtime_no_copy_error rt -> py_no_copy rt (py_ensure_output op).
Proof.
  intros Hop (_ & _ & _ & _ & _ & Hem & Hz & _).
  destruct Hop as [<-|[<-|[<-|[]]]]; simpl;
    [unfold py_ensure_output_gemv | unfold py_ensure_output_gemm
    | unfold py_ensure_output_ger];
    py_no_copy_tac; auto.
Qed.

Lemma pygpu_blas_r_no_copy op rt :
  well_behaved op -> runtime_no_copy_error rt ->
  py_no_copy rt (pygpu_blas_r op false).
Proof.
  intros Hw Hr fr. unfold pygpu_blas_r, pbind, pget, pask.
  pose proof (GpuArray_r_no_copy_error op rt
                (entry_frame (py_ga fr) (py_trans fr) (py_scals fr) false)
                Hw Hr eq_refl) as H.
  destruct (GpuArray_r op rt _) as [err fr']; simpl in *.
  destruct (negb (err =? GA_NO_ERROR)%Z); simpl; [congruence|exact I].
Qed.

Lemma OPS_wb op : In op OPS -> well_behaved op.
Proof. intros H. exact (proj1 (Forall_forall _ _) OPS_well_behaved op H). Qed.

Lemma py_blas_no_copy op rt :
  In op OPS -> runtime_no_copy_error rt -> py_no_copy rt (py_blas op).
Proof.
  intros Hop Hr. pose proof Hr as (_ & _ & _ & _ & _ & _ & _ & Hcp).
  unfold py_blas.
  apply py_no_copy_bind; [|intros _].
  { apply py_no_copy_for_each. intros m. py_no_copy_tac. }
  apply py_no_copy_bind; [apply py_ensure_output_no_copy; auto|intros _].
  apply py_no_copy_bind; [|intros _].
  { apply py_no_copy_for_each. intros a. py_no_copy_tac. auto. }
  apply py_no_copy_bind; [apply pygpu_blas_r_no_copy; auto using OPS_wb|intros _].
  py_no_copy_tac.
Qed.

(* ------------------------------------------------------------------ *)
(** ** Concrete collaborators used by the witnesses *)

Lemma ok_runtime_no_copy_error : runtime_no_copy_error ok_runtime.
Proof. repeat split; intros; simpl; discriminate. Qed.

(** What a call that reaches the backend hands it: the entry is chosen by
    the element type of the first array, the order is the one left by
    [setup_order], the arguments are the descriptor's, rendered from the
    frame [setup_order] left. *)
Lemma body_normal op rt fr err fr' :
  GpuArray_r_body op rt fr = inl (err, fr') ->
  exists fr_s blas,
    setup_order op rt fr_s = inl (tt, fr')
    /\ err = (if typecode_eqb (ga_typecode (deref fr' (firsta op))) GA_FLOAT
              then blas_entry rt blas ("s" ++ op_name op) (o fr') (blas_vals op "float" fr')
              else blas_entry rt blas ("d" ++ op_name op) (o fr') (blas_vals op "double" fr')).
Proof.
  intros H. unfold GpuArray_r_body, GpuArray_r_call in H. mon.
  repeat match type of H with
  | context [match ?x with _ => _ end] => destruct x eqn:?
  | context [if ?b then _ else _] => destruct b eqn:?
  end; try discriminate.
  all: injection H as <- <-; destruct u1; exists f0, n0; split; [exact Heqs1|].
  all: match goal with Hb : typecode_eqb _ GA_FLOAT = _ |- _ => rewrite Hb end;
       reflexivity.
Qed.

Lemma deref_set_size k v fr : deref (set_size k v fr) = deref fr.
Proof. reflexivity. Qed.
Lemma deref_set_o v fr : deref (set_o v fr) = deref fr.
Proof. reflexivity. Qed.
Lemma deref_set_trans k v fr : deref (set_trans k v fr) = deref fr.
Proof. reflexivity. Qed.

(** [setup_order_gemm] on the three classes of [C], [A] and [B]. *)
Lemma setup_order_gemm_spec rt fr :
  let Cp := deref fr "C" in let Ap := deref fr "A" in let Bp := deref fr "B" in
  match storage_order Cp, storage_order Ap, storage_order Bp with
  | Some oc, Some oa, Some ob =>
      exists fr', setup_order_gemm rt fr = inl (tt, fr')
      /\ deref fr' = deref fr
      /\ o fr' = oc
      /\ sizes fr' "ldc" = ld_of oc Cp
      /\ sizes fr' "lda" = ld_of oa Ap
      /\ sizes fr' "ldb" = ld_of ob Bp
      /\ transs fr' "transA" = (if cb_order_eqb oa oc then transs fr "transA"
                                else flip (transs fr "transA"))
      /\ transs fr' "transB" = (if cb_order_eqb ob oc then transs fr "transB"
                                else flip (transs fr "transB"))
  | _, _, _ => exists fr', setup_order_gemm rt fr = inr (ExGoto GA_VALUE_ERROR, fr')
  end.
Proof.
  cbv zeta. unfold storage_order, setup_order_gemm, order_block_gemm, bind, get, modify, ret,
    goto_cleanup.
  repeat (cbn -[deref]; rewrite ?deref_set_size, ?deref_set_o, ?deref_set_trans;
          match goal with
          | |- context [if flag_set (flags (deref fr ?X)) ?F then _ else _] =>
              destruct (flag_set (flags (deref fr X)) F) eqn:?
          end);
  cbn -[deref]; try congruence; try (eexists; reflexivity);
  eexists; (split; [reflexivity|]); cbn -[deref]; repeat split.
Qed.

(** Splits a conjunction of [Forall]s over concrete lists and closes each
    boolean check by evaluation. *)
Ltac split_eval :=
  repeat match goal with
         | |- _ /\ _ => split
         | |- Forall _ (_ :: _) => apply Forall_cons
         | |- Forall _ [] => apply Forall_nil
         end;
  try (lazymatch goal with
       | |- forall _, _ => fail
       | _ => vm_compute; reflexivity
       end).

(* ================================================================== *)
(** * The claims *)

(** C2: on every exit path of every generated [GpuArray_r<op>] (success,
    backend error, any validation error), every fallback copy allocated in
    the contiguity step has been released when the call returns. *)
Theorem fallback_copies_released :
  Forall (fun op => forall rt A T S noc,
            live (snd (GpuArray_r op rt (entry_frame A T S noc))) = []) OPS.
Proof.
  apply Forall_forall. intros op Hop rt A T S noc.
  apply GpuArray_r_live; [apply OPS_wb, Hop|reflexivity].
Qed.

(** C7 (counterexample): the simplified-surface symbol of [gemv] is not the
    operation name: it is [GpuArray_rgemv], and the generated [blas.h] also
    defines the per-type alias [GpuArray_sgemv]. *)
Lemma simple_symbol_not_op_name :
  simple_symbol gemv_op = "GpuArray_rgemv"
  /\ simple_symbol gemv_op <> op_name gemv_op
  /\ occurs "#define GpuArray_sgemv GpuArray_rgemv" (render_blas OPS) = true.
Proof. split; [reflexivity|split; [discriminate|vm_compute; reflexivity]]. Qed.

(** C7 (amended): for every operation and element type, the per-type
    backend symbol is the type letter followed by the operation name (the
    dispatch-table entry and the backend-table field); the simplified
    surface is [GpuArray_r] followed by the operation name, declared once,
    with the alias [GpuArray_<letter><op>] defined to it; the high-level
    binding is named by the operation name alone. *)
Theorem symbol_names :
  Forall (fun op =>
    simple_symbol op = "GpuArray_r" ++ op_name op
    /\ highlevel_symbol op = op_name op
    /\ occurs ("GPUARRAY_PUBLIC int " ++ simple_symbol op ++ "(") (render_blas OPS) = true
    /\ occurs ("int " ++ simple_symbol op ++ "(") (render_arrayblas OPS) = true
    /\ occurs ("def " ++ highlevel_symbol op ++ "(") (render_blas_pyx OPS) = true
    /\ Forall (fun ty =>
         backend_symbol ty op = c ty ++ op_name op
         /\ occurs ("  " ++ backend_symbol ty op ++ "," ++ NL) (render_generic OPS) = true
         /\ occurs ("int (*" ++ backend_symbol ty op ++ ")(") (render_bufferblas OPS) = true
         /\ occurs ("#define " ++ simple_alias ty op ++ " " ++ simple_symbol op)
                   (render_blas OPS) = true) (types op)) OPS.
Proof.
  apply Forall_forall. intros op Hop.
  destruct Hop as [<-|[<-|[<-|[]]]]; cbn [types gemv_op gemm_op ger_op]; split_eval.
Qed.

(** C8: for every operation and element type, the low-level declaration
    (in [generic_blas.inc.c] and as the backend-table field in
    [buffer_blas.h]) and the forwarding call render the descriptor's
    arguments one by one in descriptor order, each piece naming its
    argument, after the prepended order parameter (every operation has a
    matrix); the simplified declaration keeps exactly the arguments that
    are not sizes or increments, is declared once per operation in
    [blas.h] and implemented once in [gpuarray_array_blas.c]; a call that
    reaches the backend picks the [s] or [d] entry by the first array's
    element type at run time. *)
Theorem surfaces_agree :
  Forall (fun op =>
    has_order op = true
    /\ Forall (fun ty =>
         occurs ("static int typec ## " ++ op_name op ++ "(" ++ format_arguments op "dtype" ++ ")")
                (render_generic OPS) = true
         /\ occurs ("int (*" ++ backend_symbol ty op ++ ")(" ++ format_arguments op (dt_name ty) ++ ");")
                   (render_bufferblas OPS) = true
         /\ occurs ("(INIT_ARGS " ++ format_call_args op ++ " TRAIL_ARGS)") (render_generic OPS) = true
         /\ format_arguments op (dt_name ty)
            = "cb_order order, " ++ join ", " (map (fun a => format_as_arg a (dt_name ty)) (arguments op))
         /\ format_call_args op = "ORDER " ++ join ", " (map format_as_call (arguments op))
         /\ forallb (fun a => occurs (name a) (format_as_arg a (dt_name ty))
                              && occurs (name a) (format_as_call a)) (arguments op) = true)
         (types op)
    /\ simple_args op
       = filter (fun a => negb (ArgClass_eqb (arg_class a) Csize
                                || ArgClass_eqb (arg_class a) Cinc)) (arguments op)
    /\ count_sub ("GPUARRAY_PUBLIC int " ++ simple_symbol op ++ "(") (render_blas OPS) = 1%nat
    /\ count_sub ("int " ++ simple_symbol op ++ "(") (render_arrayblas OPS) = 1%nat
    /\ (forall rt fr err fr', GpuArray_r_body op rt fr = inl (err, fr') ->
          exists blas,
            err = if typecode_eqb (ga_typecode (deref fr' (firsta op))) GA_FLOAT
                  then blas_entry rt blas ("s" ++ op_name op) (o fr') (blas_vals op "float" fr')
                  else blas_entry rt blas ("d" ++ op_name op) (o fr') (blas_vals op "double" fr')))
    OPS.
Proof.
  apply Forall_forall. intros op Hop.
  assert (Hb : forall rt fr err fr', GpuArray_r_body op rt fr = inl (err, fr') ->
            exists blas,
              err = if typecode_eqb (ga_typecode (deref fr' (firsta op))) GA_FLOAT
                    then blas_entry rt blas ("s" ++ op_name op) (o fr') (blas_vals op "float" fr')
                    else blas_entry rt blas ("d" ++ op_name op) (o fr') (blas_vals op "double" fr')).
  { intros rt fr err fr' H. destruct (body_normal op rt fr err fr' H) as (fr_s & b & _ & E).
    exists b. exact E. }
  destruct Hop as [<-|[<-|[<-|[]]]]; cbn [types gemv_op gemm_op ger_op];
    (split_eval; [exact Hb]).
Qed.

(** C9: the generator writes the five artifacts from [OPS] alone: running
    it twice leaves the same files as running it once, and whatever the
    prior contents, the five artifacts come out byte-identical. *)
Theorem generation_idempotent :
  (forall fs p, gen_blas_main (gen_blas_main fs) p = gen_blas_main fs p)
  /\ (forall fs1 fs2, Forall (fun p => gen_blas_main fs1 p = gen_blas_main fs2 p)
                             artifact_paths).
Proof.
  split.
  - intros fs p. unfold gen_blas_main, write_file.
    repeat (destruct (String.eqb p _); [reflexivity|]). reflexivity.
  - intros fs1 fs2. cbn [artifact_paths].
    repeat apply Forall_cons; try apply Forall_nil; reflexivity.
Qed.

(** C10: every generated high-level binding calls the simplified surface
    with [nocopy = 0], so it never raises a copy error unless a collaborator
    (copy, property lookup, backend, pygpu allocation) itself reports one;
    and its parameter list has no option to forbid the copy. *)
Theorem highlevel_no_copy_error op rt fr :
  In op OPS -> runtime_no_copy_error rt ->
  (forall fr', py_blas op rt fr <> inr (GpuArrayException GA_COPY_ERROR, fr'))
  /\ forallb (fun p => negb (occurs "nocopy" p)) (format_pyargs_list op) = true
  /\ occurs ("    pygpu_blas_r" ++ op_name op ++ "(" ++ format_simple_calls op "" "" ++ ", 0)")
            (render_blas_pyx OPS) = true.
Proof.
  intros Hop Hr. split; [|split].
  - intros fr' E. pose proof (py_blas_no_copy op rt Hop Hr fr) as H.
    rewrite E in H. apply H; reflexivity.
  - destruct Hop as [<-|[<-|[<-|[]]]]; vm_compute; reflexivity.
  - destruct Hop as [<-|[<-|[<-|[]]]]; vm_compute; reflexivity.
Qed.

Lemma highlevel_no_copy_error_witness :
  In gemv_op OPS /\ runtime_no_copy_error ok_runtime
  /\ forall fr', py_blas gemv_op ok_runtime gemv_py_frame
                 <> inr (GpuArrayException GA_COPY_ERROR, fr').
Proof.
  split; [left; reflexivity|split; [exact ok_runtime_no_copy_error|]].
  apply (highlevel_no_copy_error gemv_op ok_runtime gemv_py_frame);
    [left; reflexivity|exact ok_runtime_no_copy_error].
Defined.

(** C1 (counterexample): the dimension check runs before the contiguity
    fallback, on the caller's arrays. On [c1_frame] ([nocopy] set, [A] not
    one segment, [Y] too long) [GpuArray_rgemv] returns [GA_VALUE_ERROR],
    while the contiguity step, run first as the spec orders it, would stop
    with [GA_COPY_ERROR]. *)
Lemma dims_checked_before_contiguity :
  fst (GpuArray_r gemv_op ok_runtime c1_frame) = GA_VALUE_ERROR
  /\ contiguity_step (matrix "A" false) ok_runtime c1_frame
     = inr (ExReturn GA_COPY_ERROR, c1_frame).
Proof. split; reflexivity. Qed.

(** C1 (amended): for every operation, [GpuArray_r<op>] runs one pass in
    this order, returning the code of the first failing step: first array's
    element type ([GA_INVALID_ERROR]), rank and type agreement
    ([GA_VALUE_ERROR]), alignment ([GA_UNALIGNED_ERROR]), the dimension
    check on the caller's arrays ([GA_VALUE_ERROR]), then the contiguity
    fallback, the storage-order setup and the backend call. The outcome of
    the dimension check depends only on the caller's arrays and transpose
    flags, not on [nocopy] or on any copy. *)
Theorem validation_pipeline_order :
  Forall (fun op => forall rt fr,
    GpuArray_r_body op rt fr =
      (let F := arrs fr (firsta op) in
       if negb (typecode_eqb (ga_typecode F) GA_FLOAT)
          && negb (typecode_eqb (ga_typecode F) GA_DOUBLE)
       then inr (ExReturn GA_INVALID_ERROR, fr)
       else if existsb (ndcond fr) (array_args op)
               || existsb (typecond fr (firsta op)) (array_args op)
       then inr (ExReturn GA_VALUE_ERROR, fr)
       else if existsb (aligncond fr) (array_args op)
       then inr (ExReturn GA_UNALIGNED_ERROR, fr)
       else match check_dims op rt fr with
            | inr (_, fr1) => inr (ExReturn GA_VALUE_ERROR, fr1)
            | inl (_, fr1) =>
                (for_each (array_args op) contiguity_step;;; setup_order op;;;
                 GpuArray_r_call op)
                  rt (set_elsize (gpuarray_get_elsize (ga_typecode F)) fr1)
            end)
    /\ forall fr', arrs fr' = arrs fr -> transs fr' = transs fr ->
         is_exit (check_dims op rt fr') = is_exit (check_dims op rt fr)) OPS.
Proof.
  apply Forall_forall; intros op Hop rt fr. split.
  - destruct (OPS_wb op Hop) as (_ & Hx & _). specialize (Hx rt fr).
    unfold GpuArray_r_body. cbv [bind get c_return modify ret].
    destruct (negb _ && negb _); [reflexivity|].
    destruct (_ || _); [reflexivity|].
    destruct (existsb _ _); [reflexivity|].
    destruct (check_dims op rt fr) as [[[] fr1]|[[e|e] fr1]];
      [reflexivity|rewrite Hx; reflexivity|destruct Hx].
  - intros fr' Ha Ht.
    destruct Hop as [<-|[<-|[<-|[]]]]; cbn [check_dims gemv_op gemm_op ger_op];
      [unfold check_dims_gemv|unfold check_dims_gemm|unfold check_dims_ger];
      mon; repeat (rewrite ?Ha, ?Ht;
                   match goal with |- context [if ?b then _ else _] => destruct b; cbn end);
      reflexivity.
Qed.

(** C3: the contiguity step for one array argument. An array without the
    defect is left alone; a defective output array fails with
    [GA_VALUE_ERROR] and is never copied; a defective input array with
    [nocopy] set fails with [GA_COPY_ERROR], the frame unchanged (no copy
    allocated); otherwise the input is replaced by the copy [GpuArray_copy]
    returns, which the array now points to and which is recorded as live. *)
Theorem contiguity_fallback :
  forall a rt fr, let X := arrs fr (name a) in
  (defective a X = false -> contiguity_step a rt fr = inl (tt, fr))
  /\ (defective a X = true -> isoutput a = true ->
        contiguity_step a rt fr = inr (ExGoto GA_VALUE_ERROR, fr))
  /\ (defective a X = true -> isoutput a = false -> nocopy fr = true ->
        contiguity_step a rt fr = inr (ExReturn GA_COPY_ERROR, fr))
  /\ (forall cp, defective a X = true -> isoutput a = false -> nocopy fr = false ->
        GpuArray_copy rt X (if ismatrix a then GA_F_ORDER else GA_ANY_ORDER)
          = (GA_NO_ERROR, cp) ->
        exists fr', contiguity_step a rt fr = inl (tt, fr')
          /\ ptrs fr' (name a) = PCopy /\ deref fr' (name a) = cp
          /\ live fr' = name a :: live fr
          /\ arrs fr' = arrs fr /\ nocopy fr' = nocopy fr).
Proof.
  intros a rt fr X. unfold contiguity_step. mon. fold X.
  split; [|split; [|split]].
  - intros Hd; rewrite Hd; reflexivity.
  - intros Hd Ho; rewrite Hd, Ho; reflexivity.
  - intros Hd Ho Hn; rewrite Hd, Ho, Hn; reflexivity.
  - intros cp Hd Ho Hn Hc; rewrite Hd, Ho, Hn, Hc; cbn.
    eexists; split; [reflexivity|].
    unfold deref; cbn; unfold upd; rewrite String.eqb_refl. repeat split; auto.
Qed.

(** C4: in the matrix-matrix product the order is fixed by [C]
    (column-major when [C] is Fortran-contiguous, else row-major when it is
    C-contiguous); [A] and [B] take their leading dimension from their own
    storage order, which is the opposite dimension from the fixed order's
    when the two disagree, and exactly then their transpose flag is
    inverted ([cb_no_trans] becomes [cb_trans], any other flag becomes
    [cb_no_trans]); a matrix that is neither C- nor Fortran-contiguous is a
    layout error ([GA_VALUE_ERROR]); and a call that reaches the backend
    hands it the order fixed by [C]. *)
Theorem gemm_storage_order :
  (forall rt fr,
    let Cp := deref fr "C" in let Ap := deref fr "A" in let Bp := deref fr "B" in
    match storage_order Cp, storage_order Ap, storage_order Bp with
    | Some oc, Some oa, Some ob =>
        exists fr', setup_order gemm_op rt fr = inl (tt, fr')
        /\ o fr' = oc
        /\ sizes fr' "lda" = ld_of oa Ap
        /\ sizes fr' "ldb" = ld_of ob Bp
        /\ transs fr' "transA" = (if cb_order_eqb oa oc then transs fr "transA"
                                  else flip (transs fr "transA"))
        /\ transs fr' "transB" = (if cb_order_eqb ob oc then transs fr "transB"
                                  else flip (transs fr "transB"))
    | _, _, _ => exists fr', setup_order gemm_op rt fr = inr (ExGoto GA_VALUE_ERROR, fr')
    end)
  /\ (forall X, ld_of cb_fortran X = dim X 0 /\ ld_of cb_c X = dim X 1)
  /\ flip cb_no_trans = cb_trans /\ flip cb_trans = cb_no_trans
  /\ (forall rt fr err fr', GpuArray_r_body gemm_op rt fr = inl (err, fr') ->
        storage_order (deref fr' "C") = Some (o fr')
        /\ exists blas,
             err = if typecode_eqb (ga_typecode (deref fr' "A")) GA_FLOAT
                   then blas_entry rt blas "sgemm" (o fr') (blas_vals gemm_op "float" fr')
                   else blas_entry rt blas "dgemm" (o fr') (blas_vals gemm_op "double" fr')).
Proof.
  split; [|split; [|split; [|split]]].
  - intros rt fr. pose proof (setup_order_gemm_spec rt fr) as T. cbv zeta in *.
    cbn [setup_order gemm_op].
    destruct (storage_order (deref fr "C")), (storage_order (deref fr "A")),
      (storage_order (deref fr "B")); try exact T.
    destruct T as (fr' & E & _ & Ho & _ & Ha & Hb & Hta & Htb).
    exists fr'. repeat split; assumption.
  - intros X; split; reflexivity.
  - reflexivity.
  - reflexivity.
  - intros rt fr err fr' H.
    destruct (body_normal gemm_op rt fr err fr' H) as (fr_s & blas & Hs & E).
    split; [|exists blas; exact E].
    pose proof (setup_order_gemm_spec rt fr_s) as T. cbv zeta in T.
    cbn [setup_order gemm_op] in Hs.
    destruct (storage_order (deref fr_s "C")) eqn:EC;
      [destruct (storage_order (deref fr_s "A")); [destruct (storage_order (deref fr_s "B"))|]|];
      cbv beta iota in T;
      (destruct T as [fr'' T]; lazymatch type of T with
                               | _ /\ _ => destruct T as [E' T]
                               | _ => rename T into E'
                               end);
      rewrite Hs in E'; try discriminate.
    injection E' as <-. destruct T as (Hd & Ho & _). rewrite Hd, EC, Ho. reflexivity.
Qed.

(** C5 (counterexample): the binding checks that [A] is a matrix before it
    looks at the output: with a vector for [A], no [Y] and [beta = 1],
    [py_ensure_output_gemv] raises [TypeError], not the usage error. *)
Lemma ensure_output_rank_first :
  py_arrs c5_frame "Y" = None /\ nonzero (py_scals c5_frame "beta") = true
  /\ py_ensure_output_gemv ok_runtime c5_frame
     = inr (TypeError "A is not a matrix", c5_frame).
Proof. split; [reflexivity|split; reflexivity]. Qed.

(** C5 (amended): in the matrix-vector and matrix-matrix bindings, once [A]
    (and [B]) are matrices: a missing output with [beta] not exactly zero
    raises the usage error [ValueError]; with [beta = 0] a fresh output is
    allocated with [pygpu_empty] at the inferred shape ([Y]: rows of [A]
    after transpose; [C]: rows of [A] after transpose by columns of [B]
    after transpose) and marked to be overwritten, before the binding calls
    [GpuArray_r<op>]. A matrix of the wrong rank raises [TypeError] first:
    for [A] in both bindings, and for [B] in [gemm] when [A] is a matrix. *)
Theorem ensure_output_gemv_gemm :
  (forall rt fr, nd (py_ga fr "A") = 2%nat -> py_arrs fr "Y" = None ->
     nonzero (py_scals fr "beta") = true ->
     exists fr', py_ensure_output_gemv rt fr
                 = inr (ValueError "Y not provided and beta != 0", fr'))
  /\ (forall rt fr Y, nd (py_ga fr "A") = 2%nat -> py_arrs fr "Y" = None ->
     nonzero (py_scals fr "beta") = false ->
     let Yshp := if cb_transpose_eqb (py_trans fr "transA") cb_no_trans
                 then dim (py_ga fr "A") 0 else dim (py_ga fr "A") 1 in
     pygpu_empty rt [Yshp] (ga_typecode (py_ga fr "A")) = inr Y ->
     py_ensure_output_gemv rt fr
       = inl (tt, pset_bool "overwrite_y" true (pset_arr "Y" Y (pset_shp [Yshp] fr))))
  /\ (forall rt fr, nd (py_ga fr "A") = 2%nat -> nd (py_ga fr "B") = 2%nat ->
     py_arrs fr "C" = None -> nonzero (py_scals fr "beta") = true ->
     exists fr', py_ensure_output_gemm rt fr
                 = inr (ValueError "C not provided and beta != 0", fr'))
  /\ (forall rt fr C, nd (py_ga fr "A") = 2%nat -> nd (py_ga fr "B") = 2%nat ->
     py_arrs fr "C" = None -> nonzero (py_scals fr "beta") = false ->
     let Cshp0 := if cb_transpose_eqb (py_trans fr "transA") cb_no_trans
                  then dim (py_ga fr "A") 0 else dim (py_ga fr "A") 1 in
     let Cshp1 := if cb_transpose_eqb (py_trans fr "transB") cb_no_trans
                  then dim (py_ga fr "B") 1 else dim (py_ga fr "B") 0 in
     pygpu_empty rt [Cshp0; Cshp1] (ga_typecode (py_ga fr "A")) = inr C ->
     py_ensure_output_gemm rt fr
       = inl (tt, pset_bool "overwrite_c" true (pset_arr "C" C (pset_shp [Cshp0; Cshp1] fr))))
  /\ (forall rt fr, nd (py_ga fr "A") <> 2%nat ->
        py_ensure_output_gemv rt fr = inr (TypeError "A is not a matrix", fr)
        /\ py_ensure_output_gemm rt fr = inr (TypeError "A is not a matrix", fr))
  /\ (forall rt fr, nd (py_ga fr "A") = 2%nat -> nd (py_ga fr "B") <> 2%nat ->
        py_ensure_output_gemm rt fr = inr (TypeError "B is not a matrix", fr)).
Proof.
  unfold py_ensure_output_gemv, py_ensure_output_gemm, pbind, pget, pmodify, pask, pcall,
    raise, pret.
  split; [|split; [|split; [|split; [|split]]]].
  - intros rt fr Ha Hy Hb. rewrite Ha; cbn -[dim py_ga]. rewrite Hy, Hb. eexists; reflexivity.
  - intros rt fr Y Ha Hy Hb; cbv zeta; intros He. rewrite Ha; cbn -[dim py_ga].
    rewrite Hy, Hb. cbn -[dim py_ga]. rewrite He. reflexivity.
  - intros rt fr Ha Hb' Hy Hb. rewrite Ha, Hb'; cbn -[dim py_ga]. rewrite Hy, Hb.
    eexists; reflexivity.
  - intros rt fr C Ha Hb' Hy Hb; cbv zeta; intros He. rewrite Ha, Hb'; cbn -[dim py_ga].
    rewrite Hy, Hb. cbn -[dim py_ga]. rewrite He. reflexivity.
  - intros rt fr Ha. apply Nat.eqb_neq in Ha. rewrite Ha. split; reflexivity.
  - intros rt fr Ha Hb. apply Nat.eqb_neq in Hb. rewrite Ha, Hb. reflexivity.
Qed.

(** C6: in the rank-1 update binding a missing [A] is allocated with
    [pygpu_zeros] at shape (length of [X], length of [Y]), whatever the
    scalars, and marked to be overwritten; a given [A] is kept. The
    dimension check [check_dims_ger] fails exactly when [A]'s shape is not
    (length of [X], length of [Y]); so such a call never succeeds, and it
    fails with [GA_VALUE_ERROR] once the element-type, rank and alignment
    checks have passed. *)
Theorem ger_output_and_dims :
  (forall rt fr A',
     py_arrs fr "A" = None ->
     pygpu_zeros rt [dim (py_ga fr "X") 0; dim (py_ga fr "Y") 0] (ga_typecode (py_ga fr "X"))
       = inr A' ->
     py_ensure_output_ger rt fr
       = inl (tt, pset_bool "overwrite_a" true
                    (pset_arr "A" A' (pset_shp [dim (py_ga fr "X") 0; dim (py_ga fr "Y") 0] fr))))
  /\ (forall rt fr A0, py_arrs fr "A" = Some A0 -> py_ensure_output_ger rt fr = inl (tt, fr))
  /\ (forall rt fr,
        let A := arrs fr "A" in
        is_exit (check_dims_ger rt fr)
        = negb ((dim A 0 =? dim (arrs fr "X") 0) && (dim A 1 =? dim (arrs fr "Y") 0))%Z)
  /\ (forall rt fr,
        let A := arrs fr "A" in
        ((dim A 0 =? dim (arrs fr "X") 0) && (dim A 1 =? dim (arrs fr "Y") 0))%Z = false ->
        fst (GpuArray_r ger_op rt fr) <> GA_NO_ERROR
        /\ (prechecks_pass ger_op fr = true -> fst (GpuArray_r ger_op rt fr) = GA_VALUE_ERROR)).
Proof.
  split; [|split; [|split]].
  - intros rt fr A' Ha Hz. unfold py_ensure_output_ger, pbind, pget, pmodify, pask, pcall.
    cbn -[dim py_ga]. rewrite Ha. cbn -[dim py_ga]. rewrite Hz. reflexivity.
  - intros rt fr A0 Ha. unfold py_ensure_output_ger, pbind, pget. rewrite Ha. reflexivity.
  - intros rt fr; cbv zeta. unfold check_dims_ger. mon.
    destruct (dim (arrs fr "A") 0 =? _)%Z, (dim (arrs fr "A") 1 =? _)%Z; reflexivity.
  - intros rt fr A Hm.
    assert (Hc : check_dims_ger rt fr
                 = inr (ExReturn GA_VALUE_ERROR,
                        set_size "n" (dim (arrs fr "Y") 0)
                          (set_size "m" (dim (arrs fr "X") 0) fr))).
    { unfold check_dims_ger. mon. subst A.
      destruct (dim (arrs fr "A") 0 =? _)%Z, (dim (arrs fr "A") 1 =? _)%Z;
        try reflexivity; discriminate. }
    unfold prechecks_pass, GpuArray_r, GpuArray_r_body, bind, get, modify, c_return.
    cbn -[check_dims_ger for_each contiguity_step setup_order_ger GpuArray_r_call
          existsb negb andb orb typecode_eqb].
    repeat match goal with |- context [if ?b then _ else _] => destruct b eqn:? end;
      cbn -[check_dims_ger]; try rewrite Hc;
      (split; [discriminate|]); try reflexivity; discriminate.
Qed.

(* ================================================================== *)
(** * Further properties of the generated code *)

(** The call block of [GpuArray_r<op>] leaves the frame as it is when it falls through. *)
Lemma call_keeps_frame op rt fr err fr' :
  GpuArray_r_call op rt fr = inl (err, fr') -> fr' = fr.
Proof.
  unfold GpuArray_r_call. cbv [bind get ask goto_cleanup ret]. intros H.
  repeat match type of H with
         | context [match ?p with (_, _) => _ end] => destruct p
         | context [if ?b then _ else _] => destruct b
         end; try discriminate.
  all: injection H as _ <-; reflexivity.
Qed.

(** A run of the function body that reaches its end passed the prechecks,
    [check_dims], the contiguity loop and [setup_order] in turn. *)
Lemma body_success op rt fr err fr' :
  GpuArray_r_body op rt fr = inl (err, fr') ->
  exists fr1 fr2,
    prechecks_pass op fr = true
    /\ check_dims op rt fr = inl (tt, fr1)
    /\ for_each (array_args op) contiguity_step rt
         (set_elsize (gpuarray_get_elsize (ga_typecode (arrs fr (firsta op)))) fr1)
       = inl (tt, fr2)
    /\ setup_order op rt fr2 = inl (tt, fr')
    /\ GpuArray_r_call op rt fr' = inl (err, fr').
Proof.
  unfold GpuArray_r_body, prechecks_pass. cbv [bind get c_return modify ret].
  intros H.
  destruct (negb _ && negb _); [discriminate|].
  destruct (_ || _); [discriminate|].
  destruct (existsb _ _); [discriminate|].
  destruct (check_dims op rt fr) as [[[] fr1]|]; [|discriminate].
  destruct (for_each _ _ _ _) as [[[] fr2]|] eqn:Ef; [|discriminate].
  destruct (setup_order op rt fr2) as [[[] fr3]|] eqn:Es; [|discriminate].
  pose proof (call_keeps_frame op rt fr3 err fr' H) as <-.
  exists fr1, fr2. repeat split; auto.
Qed.

(** One pass of the contiguity block: only the pointer of [a] may change,
    and it changes to the copy exactly when [a] is defective (which needs
    [a] to be an input and [nocopy] off). *)
Lemma contiguity_step_ok a rt fr fr' :
  contiguity_step a rt fr = inl (tt, fr') ->
  same_params fr fr'
  /\ (forall k, k <> name a -> deref fr' k = deref fr k)
  /\ (if defective a (arrs fr (name a))
      then isoutput a = false /\ nocopy fr = false
           /\ deref fr' (name a) = fallback_array rt a (arrs fr (name a))
      else deref fr' (name a) = deref fr (name a)).
Proof.
  unfold contiguity_step, fallback_array. cbv [bind get ask modify ret goto_cleanup c_return].
  destruct (defective a _) eqn:Ed.
  - destruct (isoutput a); [discriminate|].
    destruct (nocopy fr) eqn:En; [discriminate|].
    destruct (GpuArray_copy rt _ _) as [err cp] eqn:Ec.
    destruct (negb _); [discriminate|].
    intros H; injection H as <-.
    split; [repeat split|split].
    + intros k Hk. unfold deref; cbn; unfold upd.
      apply String.eqb_neq in Hk. rewrite Hk. reflexivity.
    + split; [reflexivity|split; [reflexivity|]].
      unfold deref; cbn; unfold upd; rewrite String.eqb_refl. reflexivity.
  - intros H; injection H as <-. split; [repeat split|split; auto].
Qed.

(** [same_params] composes. *)
Lemma same_params_trans f1 f2 f3 :
  same_params f1 f2 -> same_params f2 f3 -> same_params f1 f3.
Proof.
  intros (?&?&?&?&?&?&?) (?&?&?&?&?&?&?). repeat split; congruence.
Qed.

(** The contiguity loop over distinct arguments, argument by argument. *)
Lemma for_each_contiguity_ok rt l : forall fr fr',
  NoDup (map name l) ->
  for_each l contiguity_step rt fr = inl (tt, fr') ->
  same_params fr fr'
  /\ (forall k, ~ In k (map name l) -> deref fr' k = deref fr k)
  /\ (forall a, In a l ->
        if defective a (arrs fr (name a))
        then isoutput a = false /\ nocopy fr = false
             /\ deref fr' (name a) = fallback_array rt a (arrs fr (name a))
        else deref fr' (name a) = deref fr (name a)).
Proof.
  induction l as [|a l IH]; intros fr fr' Hnd H.
  - cbn in H. injection H as <-. split; [repeat split|split; [auto|intros a []]].
  - cbn in H. cbv [bind] in H.
    destruct (contiguity_step a rt fr) as [[[] fr1]|] eqn:E1; [|discriminate].
    apply contiguity_step_ok in E1 as (Hs1 & Hk1 & Ha1).
    inversion Hnd as [|? ? Hna Hnd']; subst.
    destruct (IH fr1 fr' Hnd' H) as (Hs2 & Hk2 & Ha2).
    pose proof Hs1 as (Ea & _ & _ & En & _).
    split; [eapply same_params_trans; eassumption|split].
    + intros k Hk. cbn in Hk.
      rewrite Hk2 by tauto. apply Hk1. intros ->. tauto.
    + intros b [<-|Hb].
      * rewrite Hk2 by exact Hna. exact Ha1.
      * specialize (Ha2 b Hb). rewrite Ea, En in Ha2.
        assert (Hne : name b <> name a).
        { intros Heq. apply Hna. rewrite <- Heq. apply in_map, Hb. }
        rewrite (Hk1 _ Hne) in Ha2. exact Ha2.
Qed.

(** What [check_dims_gemv] does, on success and on failure. *)
Lemma check_dims_gemv_res rt fr :
  let A := arrs fr "A" in let X := arrs fr "X" in let Y := arrs fr "Y" in
  let t := transs fr "transA" in
  match check_dims_gemv rt fr with
  | inl (_, fr') =>
      dim Y 0 = op_rows t A /\ dim X 0 = op_cols t A
      /\ sizes fr' "m" = dim A 0 /\ sizes fr' "n" = dim A 1
      /\ (forall k, k <> "m" -> k <> "n" -> sizes fr' k = sizes fr k)
      /\ only_sizes fr fr'
  | inr (e, _) => e = ExReturn GA_VALUE_ERROR /\ (dim Y 0 <> op_rows t A \/ dim X 0 <> op_cols t A)
  end.
Proof.
  cbv zeta. unfold check_dims_gemv, op_rows, op_cols.
  cbv [bind get modify ret c_return].
  destruct (cb_transpose_eqb (transs fr "transA") cb_no_trans); cbn;
  (destruct (dim (arrs fr "Y") 0 =? _)%Z eqn:E1; destruct (dim (arrs fr "X") 0 =? _)%Z eqn:E2;
   cbn; rewrite ?Z.eqb_eq, ?Z.eqb_neq in *;
   [|split; [reflexivity|tauto]..]).
  all: split; [assumption|split; [assumption|]].
  all: split; [reflexivity|split; [reflexivity|]].
  all: split; [intros k H1 H2; unfold upd; apply String.eqb_neq in H1, H2; rewrite H1, H2; reflexivity
              |repeat split].
Qed.

(** What [check_dims_gemm] does, on success and on failure. *)
Lemma check_dims_gemm_res rt fr :
  let A := arrs fr "A" in let B := arrs fr "B" in let C := arrs fr "C" in
  let ta := transs fr "transA" in let tb := transs fr "transB" in
  match check_dims_gemm rt fr with
  | inl (_, fr') =>
      op_rows tb B = op_cols ta A /\ dim C 0 = op_rows ta A /\ dim C 1 = op_cols tb B
      /\ sizes fr' "m" = op_rows ta A /\ sizes fr' "n" = op_cols tb B
      /\ sizes fr' "k" = op_cols ta A
      /\ (forall k, k <> "m" -> k <> "n" -> k <> "k" -> sizes fr' k = sizes fr k)
      /\ only_sizes fr fr'
  | inr (e, _) => e = ExReturn GA_VALUE_ERROR
      /\ ~ (op_rows tb B = op_cols ta A /\ dim C 0 = op_rows ta A /\ dim C 1 = op_cols tb B)
  end.
Proof.
  cbv zeta. unfold check_dims_gemm, op_rows, op_cols.
  cbv [bind get modify ret c_return].
  cbn. destruct (cb_transpose_eqb (transs fr "transA") cb_no_trans); cbn;
  destruct (cb_transpose_eqb (transs fr "transB") cb_no_trans); cbn;
  repeat match goal with
         | |- context [(?x =? ?y)%Z] => destruct (x =? y)%Z eqn:?; cbn
         end;
  rewrite ?Z.eqb_eq, ?Z.eqb_neq in *;
  try (split; [reflexivity|tauto]).
  all: split; [assumption|split; [assumption|split; [assumption|]]].
  all: split; [reflexivity|split; [reflexivity|split; [reflexivity|]]].
  all: split; [intros k H1 H2 H3; unfold upd; apply String.eqb_neq in H1, H2, H3;
               rewrite ?H1, ?H2, ?H3; reflexivity
              |repeat split].
Qed.

(** What [check_dims_ger] does, on success and on failure. *)
Lemma check_dims_ger_res rt fr :
  let A := arrs fr "A" in let X := arrs fr "X" in let Y := arrs fr "Y" in
  match check_dims_ger rt fr with
  | inl (_, fr') =>
      dim A 0 = dim X 0 /\ dim A 1 = dim Y 0
      /\ sizes fr' "m" = dim X 0 /\ sizes fr' "n" = dim Y 0
      /\ (forall k, k <> "m" -> k <> "n" -> sizes fr' k = sizes fr k)
      /\ only_sizes fr fr'
  | inr (e, _) => e = ExReturn GA_VALUE_ERROR /\ (dim A 0 <> dim X 0 \/ dim A 1 <> dim Y 0)
  end.
Proof.
  cbv zeta. unfold check_dims_ger.
  cbv [bind get modify ret c_return]. cbn.
  destruct (dim (arrs fr "A") 0 =? _)%Z eqn:E1; destruct (dim (arrs fr "A") 1 =? _)%Z eqn:E2;
   cbn; rewrite ?Z.eqb_eq, ?Z.eqb_neq in *;
   [|split; [reflexivity|tauto]..].
  split; [assumption|split; [assumption|]].
  split; [reflexivity|split; [reflexivity|]].
  split; [intros k H1 H2; unfold upd; apply String.eqb_neq in H1, H2; rewrite H1, H2; reflexivity
         |repeat split].
Qed.

(** What [setup_order_gemv] does: it follows the storage order of [A]. *)
Lemma setup_order_gemv_res rt fr :
  match storage_order (deref fr "A") with
  | Some oa => setup_order_gemv rt fr
               = inl (tt, set_size "lda" (ld_of oa (deref fr "A")) (set_o oa fr))
  | None => setup_order_gemv rt fr = inr (ExGoto GA_VALUE_ERROR, fr)
  end.
Proof.
  unfold setup_order_gemv, storage_order, ld_of.
  cbv [bind get modify ret goto_cleanup].
  destruct (flag_set _ GA_F_CONTIGUOUS); [reflexivity|].
  destruct (flag_set _ GA_C_CONTIGUOUS); reflexivity.
Qed.

(** What [setup_order_ger] does: it follows the storage order of [A]. *)
Lemma setup_order_ger_res rt fr :
  match storage_order (deref fr "A") with
  | Some oa => setup_order_ger rt fr
               = inl (tt, set_size "lda" (ld_of oa (deref fr "A")) (set_o oa fr))
  | None => setup_order_ger rt fr = inr (ExGoto GA_VALUE_ERROR, fr)
  end.
Proof.
  unfold setup_order_ger, storage_order, ld_of.
  cbv [bind get modify ret goto_cleanup].
  destruct (flag_set _ GA_F_CONTIGUOUS); [reflexivity|].
  destruct (flag_set _ GA_C_CONTIGUOUS); reflexivity.
Qed.

(** X1: [check_dims_gemv] succeeds exactly when [Y] has the rows and [X] the
    columns of [op(A)] ([A] transposed when [transA] is not [cb_no_trans]);
    it then sets [m] and [n] to the rows and columns of [A] as stored and
    changes nothing else; otherwise it returns [GA_VALUE_ERROR]. *)
Theorem gemv_dims_check_result rt fr :
  let A := arrs fr "A" in let X := arrs fr "X" in let Y := arrs fr "Y" in
  let t := transs fr "transA" in
  match check_dims_gemv rt fr with
  | inl (_, fr') =>
      dim Y 0 = op_rows t A /\ dim X 0 = op_cols t A
      /\ sizes fr' "m" = dim A 0 /\ sizes fr' "n" = dim A 1
      /\ (forall k, k <> "m" -> k <> "n" -> sizes fr' k = sizes fr k)
      /\ only_sizes fr fr'
  | inr (e, _) => e = ExReturn GA_VALUE_ERROR /\ (dim Y 0 <> op_rows t A \/ dim X 0 <> op_cols t A)
  end.
Proof. exact (check_dims_gemv_res rt fr). Qed.

(** X2: [check_dims_gemm] succeeds exactly when [op(B)] has as many rows as
    [op(A)] has columns and [C] is (rows of [op(A)]) x (columns of [op(B)]);
    it then sets [m], [n], [k] to those three sizes and changes nothing
    else; otherwise it returns [GA_VALUE_ERROR]. *)
Theorem gemm_dims_check_result rt fr :
  let A := arrs fr "A" in let B := arrs fr "B" in let C := arrs fr "C" in
  let ta := transs fr "transA" in let tb := transs fr "transB" in
  match check_dims_gemm rt fr with
  | inl (_, fr') =>
      op_rows tb B = op_cols ta A /\ dim C 0 = op_rows ta A /\ dim C 1 = op_cols tb B
      /\ sizes fr' "m" = op_rows ta A /\ sizes fr' "n" = op_cols tb B
      /\ sizes fr' "k" = op_cols ta A
      /\ (forall k, k <> "m" -> k <> "n" -> k <> "k" -> sizes fr' k = sizes fr k)
      /\ only_sizes fr fr'
  | inr (e, _) => e = ExReturn GA_VALUE_ERROR
      /\ ~ (op_rows tb B = op_cols ta A /\ dim C 0 = op_rows ta A /\ dim C 1 = op_cols tb B)
  end.
Proof. exact (check_dims_gemm_res rt fr). Qed.

(** A successful [setup_order] changes no array pointer or parameter. *)
Lemma setup_order_deref op rt fr fr' :
  In op OPS -> setup_order op rt fr = inl (tt, fr') ->
  deref fr' = deref fr /\ arrs fr' = arrs fr /\ scals fr' = scals fr
  /\ elsize fr' = elsize fr /\ nocopy fr' = nocopy fr.
Proof.
  intros Hop H. destruct Hop as [<-|[<-|[<-|[]]]]; cbn [setup_order gemv_op gemm_op ger_op] in H.
  - pose proof (setup_order_gemv_res rt fr) as T.
    destruct (storage_order _); rewrite H in T; [|discriminate].
    injection T as T; subst fr'. repeat split.
  - pose proof (setup_order_gemm_spec rt fr) as T. cbv zeta in T.
    destruct (storage_order (deref fr "C")), (storage_order (deref fr "A")),
      (storage_order (deref fr "B")); destruct T as [f T];
      try (rewrite H in T; discriminate).
    destruct T as [E T]. rewrite H in E. injection E as <-.
    destruct T as [Hd _]. split; [exact Hd|].
    unfold setup_order_gemm, order_block_gemm in H.
    cbv [bind get modify ret goto_cleanup] in H.
    repeat match type of H with
           | context [if ?b then _ else _] => destruct b
           end; try discriminate; injection H as <-; repeat split.
  - pose proof (setup_order_ger_res rt fr) as T.
    destruct (storage_order _); rewrite H in T; [|discriminate].
    injection T as T; subst fr'. repeat split.
Qed.

(** A successful [check_dims] only writes [size_t] locals. *)
Lemma check_dims_only_sizes op rt fr fr' :
  In op OPS -> check_dims op rt fr = inl (tt, fr') -> only_sizes fr fr'.
Proof.
  intros Hop H. destruct Hop as [<-|[<-|[<-|[]]]]; cbn [check_dims gemv_op gemm_op ger_op] in H.
  - pose proof (check_dims_gemv_res rt fr) as T; cbv zeta in T; rewrite H in T; apply T.
  - pose proof (check_dims_gemm_res rt fr) as T; cbv zeta in T; rewrite H in T; apply T.
  - pose proof (check_dims_ger_res rt fr) as T; cbv zeta in T; rewrite H in T; apply T.
Qed.

(** The array arguments of every operation have distinct names. *)
Lemma array_names_nodup op : In op OPS -> NoDup (map name (array_args op)).
Proof.
  intros Hop. destruct Hop as [<-|[<-|[<-|[]]]]; cbn;
    repeat (apply NoDup_cons; [cbn; intros Hc; repeat (destruct Hc as [Hc|Hc]; [discriminate|]); exact Hc|]);
    apply NoDup_nil.
Qed.

(** The stages of a run of the body that reaches its end, from an entry frame. *)
Lemma entry_success op rt A T S noc cp sz o0 el lv err fr' :
  In op OPS ->
  GpuArray_r_body op rt (start_frame A T S noc cp sz o0 el lv) = inl (err, fr') ->
  exists fr1 fr2,
    check_dims op rt (start_frame A T S noc cp sz o0 el lv) = inl (tt, fr1)
    /\ only_sizes (start_frame A T S noc cp sz o0 el lv) fr1
    /\ same_params (set_elsize (gpuarray_get_elsize (ga_typecode (A (firsta op)))) fr1) fr2
    /\ setup_order op rt fr2 = inl (tt, fr')
    /\ (forall a, In a (array_args op) ->
          deref fr2 (name a) = fallback_array rt a (A (name a))
          /\ (isoutput a = true \/ noc = true -> defective a (A (name a)) = false))
    /\ (ga_typecode (A (firsta op)) = GA_FLOAT \/ ga_typecode (A (firsta op)) = GA_DOUBLE).
Proof.
  intros Hop H.
  destruct (body_success op rt _ err fr' H) as (fr1 & fr2 & Hp & Hc & Hf & Hs & _).
  pose proof (check_dims_only_sizes op rt _ _ Hop Hc) as Ho.
  exists fr1, fr2.
  destruct (for_each_contiguity_ok rt _ _ _ (array_names_nodup op Hop) Hf) as (Hsp & _ & Ha).
  pose proof Ho as (Ea & _ & _ & En & Ep & _).
  split; [exact Hc|split; [exact Ho|split; [exact Hsp|split; [exact Hs|split]]]].
  - intros a Hin. specialize (Ha a Hin). cbn [arrs nocopy set_elsize] in Ha.
    rewrite Ea, En in Ha. cbn [arrs nocopy start_frame] in Ha.
    destruct (defective a (A (name a))) eqn:Ed.
    + destruct Ha as (Hout & Hn & Hd). split; [exact Hd|].
      intros [Hq|Hq]; congruence.
    + split; [|intros _; reflexivity].
      rewrite Ha. unfold fallback_array; rewrite Ed.
      unfold deref; cbn. rewrite Ep, Ea; cbn. reflexivity.
  - unfold prechecks_pass in Hp. cbn [arrs start_frame] in Hp.
    destruct (ga_typecode (A (firsta op))); cbn in Hp; auto; discriminate.
Qed.

(** Evaluate [lower] and [last_char] on literals in the goal. *)
Ltac norm_str :=
  repeat match goal with
         | |- context [lower ?s] =>
             let v := eval vm_compute in (lower s) in change (lower s) with v
         | |- context [last_char ?s] =>
             let v := eval vm_compute in (last_char s) in change (last_char s) with v
         end.

(** Names of argument constructors. *)
Lemma name_vector n b : name (vector n b) = n.
Proof. reflexivity. Qed.
(** Names of argument constructors. *)
Lemma name_matrix n b : name (matrix n b) = n.
Proof. reflexivity. Qed.

(** X4: when the generated [GpuArray_rgemv] reaches the BLAS call, [Y] and
    [X] fit [op(A)] ([Y] has as many entries as [op(A)] has rows, [X] as
    many as it has columns), the storage order handed to the backend is that
    of the array used for [A] (the caller's or its Fortran-order copy), the
    element size is 4 or 8, and the code returned is that of [sgemv] (float)
    or [dgemv] (double) on: the caller's [transA], the rows and columns of
    [A] as stored, [alpha], [A] with its leading dimension, [X] with its
    increment, [beta], and [Y] with its increment. Offsets are divided by
    the element size; an increment is [strides[0] / elsize] as C computes
    it ([c_inc]: the stride taken as [size_t], the quotient narrowed to
    [int]). *)
Lemma gemv_backend_args rt A T S noc cp sz o0 el lv err fr' :
  GpuArray_r_body gemv_op rt (start_frame A T S noc cp sz o0 el lv) = inl (err, fr') ->
  let Ap := fallback_array rt (matrix "A" false) (A "A") in
  let Xp := fallback_array rt (vector "X" false) (A "X") in
  let Y := A "Y" in
  let es := gpuarray_get_elsize (ga_typecode (A "A")) in
  let vals ct := [BTrans (T "transA"); BSize (dim (A "A") 0); BSize (dim (A "A") 1);
                  BScal ct (S "alpha"); BArr (data Ap) (Z.quot (offset Ap) es);
                  BSize (ld_of (o fr') Ap); BArr (data Xp) (Z.quot (offset Xp) es);
                  BInc (c_inc (stride0 Xp) es); BScal ct (S "beta");
                  BArr (data Y) (Z.quot (offset Y) es); BInc (c_inc (stride0 Y) es)] in
  storage_order Ap = Some (o fr')
  /\ (es = 4 \/ es = 8)%Z
  /\ dim Y 0 = op_rows (T "transA") (A "A") /\ dim (A "X") 0 = op_cols (T "transA") (A "A")
  /\ exists blas,
       err = if typecode_eqb (ga_typecode Ap) GA_FLOAT
             then blas_entry rt blas "sgemv" (o fr') (vals "float")
             else blas_entry rt blas "dgemv" (o fr') (vals "double").
Proof.
  intros H. cbv zeta.
  assert (Hop : In gemv_op OPS) by (left; reflexivity).
  destruct (entry_success _ _ _ _ _ _ _ _ _ _ _ _ _ Hop H) as (fr1 & fr2 & Hc & Ho & Hsp & Hs & Ha & Ht).
  destruct (body_normal _ _ _ _ _ H) as (fr_s & blas & _ & E).
  pose proof (check_dims_gemv_res rt (start_frame A T S noc cp sz o0 el lv)) as Hd. cbv zeta in Hd.
  cbn [check_dims gemv_op] in Hc. rewrite Hc in Hd. cbn [arrs transs start_frame] in Hd.
  destruct Hd as (HY & HX & Hm & Hn & _).
  destruct (Ha (matrix "A" false)) as [HA _]; [cbn; auto|].
  destruct (Ha (vector "X" false)) as [HXp _]; [cbn; auto|].
  destruct (Ha (vector "Y" true)) as [HYp HYo]; [cbn; auto|].
  rewrite name_matrix in HA. rewrite name_vector in HXp, HYp, HYo.
  assert (HYd : defective (vector "Y" true) (A "Y") = false) by (apply HYo; left; reflexivity).
  unfold fallback_array at 1 in HYp; rewrite HYd in HYp.
  pose proof (setup_order_gemv_res rt fr2) as Hso.
  cbn [setup_order gemv_op] in Hs. rewrite HA in Hso.
  destruct (storage_order (fallback_array rt (matrix "A" false) (A "A"))) as [ord|] eqn:Eo;
    rewrite Hs in Hso; [|discriminate].
  injection Hso as Hso; subst fr'.
  destruct Hsp as (_ & Htr & Hsc & _ & Hsz & _ & Hel).
  destruct Ho as (_ & Htr1 & Hsc1 & _).
  cbn [firsta array_args gemv_op] in Ht. cbn in Ht.
  split; [reflexivity|split; [destruct Ht as [Ht|Ht]; rewrite Ht; [left|right]; reflexivity|]].
  split; [exact HY|split; [exact HX|]].
  exists blas. rewrite E. change (firsta gemv_op) with "A" in *.
  cbn [blas_vals map arguments gemv_op blas_val arg_class name scalar size inc trans
       matrix vector array_arg firsta op_name append].
  norm_str. rewrite !deref_set_size, !deref_set_o, HA, HXp, HYp.
  cbn [sizes transs scals elsize o set_size set_o]. unfold upd. cbn [String.eqb Ascii.eqb Bool.eqb].
  rewrite Htr, Hsc, Hsz, Hel. cbn [transs scals sizes elsize set_elsize].
  rewrite Htr1, Hsc1, Hm, Hn. reflexivity.
Qed.

(** [setup_order_gemm] writes only [lda], [ldb] and [ldc] among the [size_t] locals. *)
Lemma setup_order_gemm_sizes rt fr fr' :
  setup_order_gemm rt fr = inl (tt, fr') ->
  forall k, k <> "lda" -> k <> "ldb" -> k <> "ldc" -> sizes fr' k = sizes fr k.
Proof.
  intros H k H1 H2 H3. apply String.eqb_neq in H1, H2, H3.
  unfold setup_order_gemm, order_block_gemm in H.
  cbv [bind get modify ret goto_cleanup] in H.
  repeat match type of H with
         | context [if ?b then _ else _] => destruct b
         end; try discriminate; injection H as <-; cbn; unfold upd; rewrite ?H1, ?H2, ?H3;
    reflexivity.
Qed.

(** X5: when the generated [GpuArray_rgemm] reaches the BLAS call, [op(A)],
    [op(B)] and [C] have compatible shapes, the call uses the storage order
    of [C], each transposition handed to the backend is the caller's when
    that operand is stored in [C]'s order and flipped otherwise, and the code
    returned is that of [sgemm] or [dgemm] on [M], [N] and [K] taken from the
    caller's [op(A)] and [op(B)], [alpha], [A], [B] and their leading
    dimensions in their own orders, [beta], [C] and its leading dimension. *)
Lemma gemm_backend_args rt A T S noc cp sz o0 el lv err fr' :
  GpuArray_r_body gemm_op rt (start_frame A T S noc cp sz o0 el lv) = inl (err, fr') ->
  let Ap := fallback_array rt (matrix "A" false) (A "A") in
  let Bp := fallback_array rt (matrix "B" false) (A "B") in
  let C := A "C" in
  let es := gpuarray_get_elsize (ga_typecode (A "A")) in
  let ta := T "transA" in let tb := T "transB" in
  exists oa ob,
    storage_order Ap = Some oa /\ storage_order Bp = Some ob
    /\ storage_order C = Some (o fr')
    /\ (es = 4 \/ es = 8)%Z
    /\ op_rows tb (A "B") = op_cols ta (A "A")
    /\ dim C 0 = op_rows ta (A "A") /\ dim C 1 = op_cols tb (A "B")
    /\ let vals ct :=
         [BTrans (if cb_order_eqb oa (o fr') then ta else flip ta);
          BTrans (if cb_order_eqb ob (o fr') then tb else flip tb);
          BSize (op_rows ta (A "A")); BSize (op_cols tb (A "B"));
          BSize (op_cols ta (A "A")); BScal ct (S "alpha");
          BArr (data Ap) (Z.quot (offset Ap) es); BSize (ld_of oa Ap);
          BArr (data Bp) (Z.quot (offset Bp) es); BSize (ld_of ob Bp);
          BScal ct (S "beta"); BArr (data C) (Z.quot (offset C) es);
          BSize (ld_of (o fr') C)] in
       exists blas,
         err = if typecode_eqb (ga_typecode Ap) GA_FLOAT
               then blas_entry rt blas "sgemm" (o fr') (vals "float")
               else blas_entry rt blas "dgemm" (o fr') (vals "double").
Proof.
  intros H. cbv zeta.
  assert (Hop : In gemm_op OPS) by (right; left; reflexivity).
  destruct (entry_success _ _ _ _ _ _ _ _ _ _ _ _ _ Hop H) as (fr1 & fr2 & Hc & Ho & Hsp & Hs & Ha & Ht).
  destruct (body_normal _ _ _ _ _ H) as (fr_s & blas & _ & E).
  pose proof (check_dims_gemm_res rt (start_frame A T S noc cp sz o0 el lv)) as Hd. cbv zeta in Hd.
  cbn [check_dims gemm_op] in Hc. rewrite Hc in Hd. cbn [arrs transs start_frame] in Hd.
  destruct Hd as (HB & HC0 & HC1 & Hm & Hn & Hk & _).
  destruct (Ha (matrix "A" false)) as [HA _]; [cbn; auto|].
  destruct (Ha (matrix "B" false)) as [HBp _]; [cbn; auto|].
  destruct (Ha (matrix "C" true)) as [HCp HCo]; [cbn; auto|].
  rewrite name_matrix in HA, HBp, HCp, HCo.
  assert (HCd : defective (matrix "C" true) (A "C") = false) by (apply HCo; left; reflexivity).
  unfold fallback_array at 1 in HCp; rewrite HCd in HCp.
  cbn [setup_order gemm_op] in Hs.
  pose proof (setup_order_gemm_sizes rt fr2 fr' Hs) as Hsz'.
  pose proof (setup_order_gemm_spec rt fr2) as T'. cbv zeta in T'.
  rewrite HA, HBp, HCp in T'.
  destruct (storage_order (A "C")) as [oc|] eqn:Ec;
    [|destruct T' as [f T']; rewrite Hs in T'; discriminate].
  destruct (storage_order (fallback_array rt (matrix "A" false) (A "A"))) as [oa|] eqn:Ea;
    [|destruct T' as [f T']; rewrite Hs in T'; discriminate].
  destruct (storage_order (fallback_array rt (matrix "B" false) (A "B"))) as [ob|] eqn:Eb;
    [|destruct T' as [f T']; rewrite Hs in T'; discriminate].
  destruct T' as (f & Ef & Hd' & Ho' & Hldc & Hlda & Hldb & HtA & HtB).
  rewrite Hs in Ef. injection Ef as <-.
  destruct Hsp as (_ & Htr & Hsc & _ & Hsz & _ & Hel).
  destruct Ho as (_ & Htr1 & Hsc1 & _).
  pose proof (setup_order_deref gemm_op rt fr2 fr' Hop Hs) as (_ & _ & Hsc' & Hel' & _).
  exists oa, ob. rewrite Ho'.
  split; [reflexivity|split; [reflexivity|split; [reflexivity|]]].
  cbn [firsta array_args gemm_op] in Ht. cbn in Ht.
  split; [destruct Ht as [Ht|Ht]; rewrite Ht; [left|right]; reflexivity|].
  split; [exact HB|split; [exact HC0|split; [exact HC1|]]].
  exists blas. rewrite E. change (firsta gemm_op) with "A" in *.
  cbn [blas_vals map arguments gemm_op blas_val arg_class name scalar size inc trans
       matrix vector array_arg firsta op_name append].
  norm_str. rewrite Hd', HA, HBp, HCp, Ho', Hldc, Hlda, Hldb, HtA, HtB, Hsc', Hel'.
  rewrite (Hsz' "m"), (Hsz' "n"), (Hsz' "k") by discriminate.
  rewrite Htr, Hsc, Hsz, Hel. cbn [transs scals sizes elsize set_elsize].
  rewrite Htr1, Hsc1, Hm, Hn, Hk. reflexivity.
Qed.

(** X6: when the generated [GpuArray_rger] reaches the BLAS call, [A] is
    (length of [X]) x (length of [Y]) and is passed in its own storage
    order, the element size is that of [X]'s type (4 or 8), and the code
    returned is that of [sger] or [dger] on the two lengths, [alpha], [X]
    and [Y] (possibly copies) with their increments ([c_inc] of their
    strides, as C computes [strides[0] / elsize] into an [int]), and [A]
    with its leading dimension. *)
Lemma ger_backend_args rt A T S noc cp sz o0 el lv err fr' :
  GpuArray_r_body ger_op rt (start_frame A T S noc cp sz o0 el lv) = inl (err, fr') ->
  let Xp := fallback_array rt (vector "X" false) (A "X") in
  let Yp := fallback_array rt (vector "Y" false) (A "Y") in
  let Am := A "A" in
  let es := gpuarray_get_elsize (ga_typecode (A "X")) in
  let vals ct := [BSize (dim (A "X") 0); BSize (dim (A "Y") 0); BScal ct (S "alpha");
                  BArr (data Xp) (Z.quot (offset Xp) es); BInc (c_inc (stride0 Xp) es);
                  BArr (data Yp) (Z.quot (offset Yp) es); BInc (c_inc (stride0 Yp) es);
                  BArr (data Am) (Z.quot (offset Am) es); BSize (ld_of (o fr') Am)] in
  storage_order Am = Some (o fr')
  /\ (es = 4 \/ es = 8)%Z
  /\ dim Am 0 = dim (A "X") 0 /\ dim Am 1 = dim (A "Y") 0
  /\ exists blas,
       err = if typecode_eqb (ga_typecode Xp) GA_FLOAT
             then blas_entry rt blas "sger" (o fr') (vals "float")
             else blas_entry rt blas "dger" (o fr') (vals "double").
Proof.
  intros H. cbv zeta.
  assert (Hop : In ger_op OPS) by (right; right; left; reflexivity).
  destruct (entry_success _ _ _ _ _ _ _ _ _ _ _ _ _ Hop H) as (fr1 & fr2 & Hc & Ho & Hsp & Hs & Ha & Ht).
  destruct (body_normal _ _ _ _ _ H) as (fr_s & blas & _ & E).
  pose proof (check_dims_ger_res rt (start_frame A T S noc cp sz o0 el lv)) as Hd. cbv zeta in Hd.
  cbn [check_dims ger_op] in Hc. rewrite Hc in Hd. cbn [arrs start_frame] in Hd.
  destruct Hd as (HA0 & HA1 & Hm & Hn & _).
  destruct (Ha (vector "X" false)) as [HXp _]; [cbn; auto|].
  destruct (Ha (vector "Y" false)) as [HYp _]; [cbn; auto|].
  destruct (Ha (matrix "A" true)) as [HAp HAo]; [cbn; auto|].
  rewrite name_matrix in HAp, HAo. rewrite name_vector in HXp, HYp.
  assert (HAd : defective (matrix "A" true) (A "A") = false) by (apply HAo; left; reflexivity).
  unfold fallback_array at 1 in HAp; rewrite HAd in HAp.
  pose proof (setup_order_ger_res rt fr2) as Hso.
  cbn [setup_order ger_op] in Hs. rewrite HAp in Hso.
  destruct (storage_order (A "A")) as [ord|] eqn:Eo;
    rewrite Hs in Hso; [|discriminate].
  injection Hso as Hso; subst fr'.
  destruct Hsp as (_ & Htr & Hsc & _ & Hsz & _ & Hel).
  destruct Ho as (_ & Htr1 & Hsc1 & _).
  cbn [firsta array_args ger_op] in Ht. cbn in Ht.
  split; [reflexivity|split; [destruct Ht as [Ht|Ht]; rewrite Ht; [left|right]; reflexivity|]].
  split; [exact HA0|split; [exact HA1|]].
  exists blas. rewrite E. change (firsta ger_op) with "X" in *.
  cbn [blas_vals map arguments ger_op blas_val arg_class name scalar size inc trans
       matrix vector array_arg firsta op_name append].
  norm_str. rewrite !deref_set_size, !deref_set_o, HAp, HXp, HYp.
  cbn [sizes transs scals elsize o set_size set_o]. unfold upd. cbn [String.eqb Ascii.eqb Bool.eqb].
  rewrite Hsc, Hsz, Hel. cbn [transs scals sizes elsize set_elsize].
  rewrite Hsc1, Hm, Hn. reflexivity.
Qed.

(** X7: when [GpuArray_r<op>] reaches the BLAS call, the array used for each
    argument is the caller's array, or its copy when it is defective; the
    output and every argument under [nocopy] are always the caller's. *)
Lemma backend_arrays op rt A T S noc cp sz o0 el lv err fr' :
  In op OPS ->
  GpuArray_r_body op rt (start_frame A T S noc cp sz o0 el lv) = inl (err, fr') ->
  forall a, In a (array_args op) ->
    deref fr' (name a) = fallback_array rt a (A (name a))
    /\ (isoutput a = true \/ noc = true -> deref fr' (name a) = A (name a)).
Proof.
  intros Hop H a Hin.
  destruct (entry_success _ _ _ _ _ _ _ _ _ _ _ _ _ Hop H) as (fr1 & fr2 & _ & _ & _ & Hs & Ha & _).
  destruct (setup_order_deref op rt fr2 fr' Hop Hs) as (Hd & _).
  destruct (Ha a Hin) as [Hf Hn]. rewrite Hd, Hf.
  split; [reflexivity|].
  intros Hq. unfold fallback_array. rewrite (Hn Hq). reflexivity.
Qed.

(** Run a binding computation in [H], splitting on the innermost test. *)
Ltac py_crush H :=
  repeat (cbn -[GpuArray_r] in H;
          lazymatch type of H with
          | inl _ = inl _ => fail
          | inr _ = inl _ => fail
          | _ => idtac
          end;
          match type of H with
          | context [if ?b then _ else _] =>
              lazymatch b with
              | context [if _ then _ else _] => fail
              | context [match _ with _ => _ end] => fail
              | _ => destruct b eqn:?
              end
          | context [match ?x with _ => _ end] =>
              lazymatch x with
              | context [if _ then _ else _] => fail
              | context [match _ with _ => _ end] => fail
              | _ => destruct x eqn:?
              end
          end); try discriminate.

(** Evaluate [lower] and [ascii_lower] on literals in [H]. *)
Ltac norm_str_in H :=
  repeat match type of H with
         | context [lower ?s] =>
             let v := eval vm_compute in (lower s) in change (lower s) with v in H
         | context [ascii_lower ?s] =>
             let v := eval vm_compute in (ascii_lower s) in change (ascii_lower s) with v in H
         end.

(** Evaluate the argument lists of a literal operation in [H]. *)
Ltac eval_lists H :=
  repeat match type of H with
         | context [matrix_args ?op] =>
             let v := eval vm_compute in (matrix_args op) in change (matrix_args op) with v in H
         | context [array_args ?op] =>
             let v := eval vm_compute in (array_args op) in change (array_args op) with v in H
         end.

(** X8: when the binding is given the output array and succeeds, it returns
    that array itself when [overwrite_<out>] is true, and a copy of it made
    by [pygpu_copy] otherwise. *)
Lemma py_blas_given_output op rt fr outs fr' :
  In op OPS -> py_blas op rt fr = inl (outs, fr') ->
  forall a X, filter isoutput (array_args op) = [a] -> py_arrs fr (name a) = Some X ->
  (py_bools fr ("overwrite_" ++ lower (name a)) = true -> outs = [X])
  /\ (py_bools fr ("overwrite_" ++ lower (name a)) = false ->
      exists cp, pygpu_copy rt X = inr cp /\ outs = [cp]).
Proof.
  intros Hop H a X Hf HX.
  destruct Hop as [<-|[<-|[<-|[]]]]; cbn in Hf; injection Hf as <-; cbn [name vector matrix array_arg] in HX |- *; norm_str;
  unfold py_blas in H; eval_lists H;
  cbn [py_ensure_output gemv_op gemm_op ger_op] in H;
  unfold py_ensure_output_gemv, py_ensure_output_gemm, py_ensure_output_ger, pygpu_blas_r in H;
  cbv [pbind pret pget pmodify pask pcall raise pfor_each] in H;
  cbn -[GpuArray_r] in H; norm_str_in H; rewrite HX in H;
  py_crush H; injection H as <- <-;
  unfold py_ga in *; cbn -[GpuArray_r] in *; rewrite ?HX in *;
  (split; intros Hb; [try congruence|try congruence]);
  try (eexists; split; [eassumption|reflexivity]).
Qed.

(** X9: when the binding is given no output and succeeds, [beta] was zero
    and it returns a fresh array: for [gemv] and [gemm] allocated with
    [pygpu_empty] at the shape of [op(A)] rows (and [op(B)] columns) in
    [A]'s type, for [ger] allocated with [pygpu_zeros] at
    (length of [X], length of [Y]) in [X]'s type. *)
Lemma py_blas_allocated_output rt fr outs fr' :
  (py_blas gemv_op rt fr = inl (outs, fr') -> py_arrs fr "Y" = None ->
     let tA := if py_bools fr "trans_a" then cb_trans else cb_no_trans in
     nonzero (py_scals fr "beta") = false
     /\ exists Y, pygpu_empty rt [op_rows tA (py_ga fr "A")] (ga_typecode (py_ga fr "A")) = inr Y
                 /\ outs = [Y])
  /\ (py_blas gemm_op rt fr = inl (outs, fr') -> py_arrs fr "C" = None ->
     let tA := if py_bools fr "trans_a" then cb_trans else cb_no_trans in
     let tB := if py_bools fr "trans_b" then cb_trans else cb_no_trans in
     nonzero (py_scals fr "beta") = false
     /\ exists C, pygpu_empty rt [op_rows tA (py_ga fr "A"); op_cols tB (py_ga fr "B")]
                              (ga_typecode (py_ga fr "A")) = inr C
                 /\ outs = [C])
  /\ (py_blas ger_op rt fr = inl (outs, fr') -> py_arrs fr "A" = None ->
     exists A, pygpu_zeros rt [dim (py_ga fr "X") 0; dim (py_ga fr "Y") 0]
                           (ga_typecode (py_ga fr "X")) = inr A
               /\ outs = [A]).
Proof.
  split; [|split]; intros H HX; cbv zeta;
  unfold py_blas in H; eval_lists H;
  cbn [py_ensure_output gemv_op gemm_op ger_op] in H;
  unfold py_ensure_output_gemv, py_ensure_output_gemm, py_ensure_output_ger, pygpu_blas_r in H;
  cbv [pbind pret pget pmodify pask pcall raise pfor_each] in H;
  norm_str_in H; cbn -[GpuArray_r] in H; rewrite HX in H;
  py_crush H; injection H as <- <-;
  unfold py_ga, op_rows, op_cols in *; cbn -[GpuArray_r] in *; rewrite ?HX in *;
  repeat split; try assumption; eexists; (split; [first [eassumption|reflexivity]|reflexivity]).
Qed.

(** Evaluate the argument lists of a literal operation in the goal. *)
Ltac eval_lists_goal :=
  repeat match goal with
         | |- context [matrix_args ?op] =>
             let v := eval vm_compute in (matrix_args op) in change (matrix_args op) with v
         | |- context [array_args ?op] =>
             let v := eval vm_compute in (array_args op) in change (array_args op) with v
         end.

(** X10: a successful binding call ran [GpuArray_r<op>] with [nocopy] off and
    the caller's scalars, returning [GA_NO_ERROR]; each input matrix
    reached it with the transposition given by [trans_<m>], each input array
    as given, and the list returned is the array passed as the output. *)
Lemma py_blas_call op rt fr outs fr' :
  In op OPS -> py_blas op rt fr = inl (outs, fr') ->
  exists A' T' f,
    GpuArray_r op rt (entry_frame A' T' (py_scals fr) false) = (GA_NO_ERROR, f)
    /\ (forall m, In m (matrix_args op) -> isoutput m = false ->
          T' ("trans" ++ name m)
          = if py_bools fr ("trans_" ++ lower (name m)) then cb_trans else cb_no_trans)
    /\ (forall a, In a (array_args op) -> isoutput a = false ->
          A' (name a) = py_ga fr (name a))
    /\ outs = map (fun a => A' (name a)) (filter isoutput (array_args op)).
Proof.
  intros Hop H.
  destruct Hop as [<-|[<-|[<-|[]]]];
  unfold py_blas in H; eval_lists H;
  cbn [py_ensure_output gemv_op gemm_op ger_op] in H;
  unfold py_ensure_output_gemv, py_ensure_output_gemm, py_ensure_output_ger, pygpu_blas_r in H;
  cbv [pbind pret pget pmodify pask pcall raise pfor_each] in H;
  norm_str_in H; cbn -[GpuArray_r] in H;
  py_crush H; injection H as <- <-;
  match goal with
  | E : negb (?z =? GA_NO_ERROR)%Z = false |- _ =>
      apply negb_false_iff, Z.eqb_eq in E; subst z
  end;
  (do 3 eexists; split; [eassumption|]).
  all: eval_lists_goal.
  all: split;
  [intros m Hm Ho; cbn in Hm; repeat (destruct Hm as [<-|Hm]); try destruct Hm;
   cbn in Ho; try discriminate; cbn [name matrix vector array_arg]; norm_str;
   unfold upd; cbn;
   repeat match goal with E : py_bools _ _ = _ |- context [py_bools _ _] => rewrite E end;
   reflexivity
  |split;
   [intros a Ha Ho; cbn in Ha; repeat (destruct Ha as [<-|Ha]); try destruct Ha;
    cbn in Ho; try discriminate; unfold py_ga; cbn; reflexivity
   |reflexivity]].
Qed.

(** X12: in every generated [def] of [blas.pyx] no parameter without a
    default follows one with a default, and the [def] line appears in the
    rendered module. *)
Lemma pyx_signatures_valid :
  Forall (fun op => defaults_last false (format_pyargs_list op) = true
                    /\ occurs ("def " ++ op_name op ++ "(" ++ format_pyargs op ++ "):")
                              (render_blas_pyx OPS) = true) OPS.
Proof. repeat constructor; vm_compute; reflexivity. Qed.

(** X13: every increment argument of every operation names a vector argument
    of that operation by its last character ([incX] for [X], [incY] for
    [Y]). *)
Lemma inc_names_vector :
  Forall (fun op => forallb (fun a => existsb (fun v => ArgClass_eqb (arg_class v) Cvector
                                                      && String.eqb (name v) (last_char (name a)))
                                        (arguments op))
                      (args_per_class op Cinc) = true) OPS.
Proof. repeat constructor. Qed.

(** X11: if [pygpu_empty] and [pygpu_zeros] return arrays of the requested
    shape, the output that [py_ensure_output_<op>] allocates fits the
    operation: [Y] has the rows of [op(A)]; [C] has the rows of [op(A)] and
    the columns of [op(B)]; [A] is (length of [X]) x (length of [Y]). *)
Lemma ensured_output_fits rt fr fr1 :
  (forall sh t Y, pygpu_empty rt sh t = inr Y -> dimensions Y = sh) ->
  (forall sh t Y, pygpu_zeros rt sh t = inr Y -> dimensions Y = sh) ->
  (py_ensure_output_gemv rt fr = inl (tt, fr1) -> py_arrs fr "Y" = None ->
     dim (py_ga fr1 "Y") 0 = op_rows (py_trans fr1 "transA") (py_ga fr1 "A"))
  /\ (py_ensure_output_gemm rt fr = inl (tt, fr1) -> py_arrs fr "C" = None ->
     dim (py_ga fr1 "C") 0 = op_rows (py_trans fr1 "transA") (py_ga fr1 "A")
     /\ dim (py_ga fr1 "C") 1 = op_cols (py_trans fr1 "transB") (py_ga fr1 "B"))
  /\ (py_ensure_output_ger rt fr = inl (tt, fr1) -> py_arrs fr "A" = None ->
     dim (py_ga fr1 "A") 0 = dim (py_ga fr1 "X") 0
     /\ dim (py_ga fr1 "A") 1 = dim (py_ga fr1 "Y") 0).
Proof.
  intros He Hz.
  unfold py_ensure_output_gemv, py_ensure_output_gemm, py_ensure_output_ger, op_rows, op_cols.
  cbv [pbind pret pget pmodify pask pcall raise].
  split; [|split]; intros H Hn; rewrite Hn in H; py_crush H;
  injection H as <-;
  repeat match goal with E : _ rt _ _ = inr _ |- _ => first [apply He in E | apply Hz in E] end;
  unfold py_ga, dim in *; cbn in *;
  repeat match goal with E : dimensions _ = _ |- _ => rewrite E end;
  cbn;
  repeat match goal with E : cb_transpose_eqb _ _ = _ |- _ => rewrite E; clear E end; auto.
Qed.

(** ** Witnesses *)

(** Witness for X4: its hypotheses hold on a concrete call. *)
Lemma gemv_backend_args_witness :
  GpuArray_r_body gemv_op ok_runtime w_gemv_start = inl (GA_NO_ERROR, w_gemv_end)
  /\ storage_order (fallback_array ok_runtime (matrix "A" false) (w_gemv_arrays "A"))
     = Some (o w_gemv_end).
Proof.
  assert (H : GpuArray_r_body gemv_op ok_runtime w_gemv_start = inl (GA_NO_ERROR, w_gemv_end))
    by (vm_compute; reflexivity).
  split; [exact H|].
  exact (proj1 (gemv_backend_args ok_runtime w_gemv_arrays (fun _ => cb_no_trans) (fun _ => 1%Q)
                  false (fun _ => null_array) (fun _ => 9%Z) cb_row 0%Z [] GA_NO_ERROR w_gemv_end H)).
Defined.

(** Witness for X5: its hypotheses hold on a concrete call. *)
Lemma gemm_backend_args_witness :
  GpuArray_r_body gemm_op ok_runtime w_gemm_start = inl (GA_NO_ERROR, w_gemm_end)
  /\ storage_order (w_gemm_arrays "C") = Some (o w_gemm_end).
Proof.
  assert (H : GpuArray_r_body gemm_op ok_runtime w_gemm_start = inl (GA_NO_ERROR, w_gemm_end))
    by (vm_compute; reflexivity).
  split; [exact H|].
  destruct (gemm_backend_args ok_runtime w_gemm_arrays (fun _ => cb_no_trans) (fun _ => 1%Q)
              false (fun _ => null_array) (fun _ => 9%Z) cb_row 0%Z [] GA_NO_ERROR w_gemm_end H)
    as (oa & ob & _ & _ & Hc & _).
  exact Hc.
Defined.

(** Witness for X6: its hypotheses hold on a concrete call. *)
Lemma ger_backend_args_witness :
  GpuArray_r_body ger_op ok_runtime w_ger_start = inl (GA_NO_ERROR, w_ger_end)
  /\ storage_order (w_ger_arrays "A") = Some (o w_ger_end).
Proof.
  assert (H : GpuArray_r_body ger_op ok_runtime w_ger_start = inl (GA_NO_ERROR, w_ger_end))
    by (vm_compute; reflexivity).
  split; [exact H|].
  exact (proj1 (ger_backend_args ok_runtime w_ger_arrays (fun _ => cb_no_trans) (fun _ => 1%Q)
                  false (fun _ => null_array) (fun _ => 9%Z) cb_row 0%Z [] GA_NO_ERROR w_ger_end H)).
Defined.

(** Witness for X7: its hypotheses hold on a concrete call. *)
Lemma backend_arrays_witness :
  In gemv_op OPS
  /\ GpuArray_r_body gemv_op ok_runtime w_gemv_start = inl (GA_NO_ERROR, w_gemv_end)
  /\ In (matrix "A" false) (array_args gemv_op)
  /\ deref w_gemv_end "A" = fallback_array ok_runtime (matrix "A" false) (w_gemv_arrays "A").
Proof.
  assert (Hop : In gemv_op OPS) by (left; reflexivity).
  assert (H : GpuArray_r_body gemv_op ok_runtime w_gemv_start = inl (GA_NO_ERROR, w_gemv_end))
    by (vm_compute; reflexivity).
  assert (Ha : In (matrix "A" false) (array_args gemv_op)) by (left; reflexivity).
  split; [exact Hop|split; [exact H|split; [exact Ha|]]].
  exact (proj1 (backend_arrays gemv_op ok_runtime w_gemv_arrays (fun _ => cb_no_trans)
                  (fun _ => 1%Q) false (fun _ => null_array) (fun _ => 9%Z) cb_row 0%Z []
                  GA_NO_ERROR w_gemv_end Hop H (matrix "A" false) Ha)).
Defined.

(** Witness for X8: its hypotheses hold on a concrete call. *)
Lemma py_blas_given_output_witness :
  In gemv_op OPS
  /\ py_blas gemv_op ok_runtime w_py_given = inl (fst w_py_given_res, snd w_py_given_res)
  /\ filter isoutput (array_args gemv_op) = [vector "Y" true]
  /\ py_arrs w_py_given (name (vector "Y" true)) = Some (vec 3 3 4)
  /\ exists cp, pygpu_copy ok_runtime (vec 3 3 4) = inr cp /\ fst w_py_given_res = [cp].
Proof.
  assert (Hop : In gemv_op OPS) by (left; reflexivity).
  assert (H : py_blas gemv_op ok_runtime w_py_given = inl (fst w_py_given_res, snd w_py_given_res))
    by (vm_compute; reflexivity).
  assert (Hf : filter isoutput (array_args gemv_op) = [vector "Y" true]) by (vm_compute; reflexivity).
  assert (HY : py_arrs w_py_given (name (vector "Y" true)) = Some (vec 3 3 4)) by (vm_compute; reflexivity).
  split; [exact Hop|split; [exact H|split; [exact Hf|split; [exact HY|]]]].
  apply (proj2 (py_blas_given_output gemv_op ok_runtime w_py_given _ _ Hop H _ _ Hf HY)).
  reflexivity.
Defined.

(** Witness for X10: its hypotheses hold on a concrete call. *)
Lemma py_blas_call_witness :
  In gemv_op OPS
  /\ py_blas gemv_op ok_runtime gemv_py_frame = inl (fst w_py_alloc_res, snd w_py_alloc_res)
  /\ exists A' T' f,
       GpuArray_r gemv_op ok_runtime (entry_frame A' T' (py_scals gemv_py_frame) false)
       = (GA_NO_ERROR, f).
Proof.
  assert (Hop : In gemv_op OPS) by (left; reflexivity).
  assert (H : py_blas gemv_op ok_runtime gemv_py_frame = inl (fst w_py_alloc_res, snd w_py_alloc_res))
    by (vm_compute; reflexivity).
  split; [exact Hop|split; [exact H|]].
  destruct (py_blas_call gemv_op ok_runtime gemv_py_frame _ _ Hop H) as (A' & T' & f & Hr & _).
  exists A', T', f. exact Hr.
Defined.

(** Witness for X11: its hypotheses hold on a concrete call. *)
Lemma ensured_output_fits_witness :
  (forall sh t Y, pygpu_empty ok_runtime sh t = inr Y -> dimensions Y = sh)
  /\ (forall sh t Y, pygpu_zeros ok_runtime sh t = inr Y -> dimensions Y = sh)
  /\ py_ensure_output_gemv ok_runtime gemv_py_frame = inl (tt, w_ens_end)
  /\ dim (py_ga w_ens_end "Y") 0 = op_rows (py_trans w_ens_end "transA") (py_ga w_ens_end "A").
Proof.
  assert (He : forall sh t Y, pygpu_empty ok_runtime sh t = inr Y -> dimensions Y = sh)
    by (intros sh t Y HY; cbn in HY; injection HY as <-; reflexivity).
  assert (Hz : forall sh t Y, pygpu_zeros ok_runtime sh t = inr Y -> dimensions Y = sh)
    by (intros sh t Y HY; cbn in HY; injection HY as <-; reflexivity).
  assert (H : py_ensure_output_gemv ok_runtime gemv_py_frame = inl (tt, w_ens_end)) by (vm_compute; reflexivity).
  split; [exact He|split; [exact Hz|split; [exact H|]]].
  exact (proj1 (ensured_output_fits ok_runtime gemv_py_frame w_ens_end He Hz) H eq_refl).
Defined.
